(** * Music Assistant integration for Home Assistant: verified model

    A shallow embedding of the pure logic of the integration
    ([media_source.py], [player_controls.py], [media_player.py]) together
    with the properties its specification states about it.

    Python values are modelled as follows: [str] is [string]; a function
    that may raise returns [result]; the Home Assistant state machine is
    an ordered list of entity states; Python dictionaries whose order is
    irrelevant are [gmap]s; awaited calls to collaborators are recorded
    in an explicit, ordered log of calls. *)

From Stdlib Require Import String Ascii List Bool Arith ZArith Lia.
From Stdlib Require Import PrimFloat SpecFloat FloatOps.
From stdpp Require Import base option list gmap strings.
Import ListNotations.

Local Open Scope string_scope.
Local Open Scope list_scope.

(** A decimal float literal denotes the nearest double, as in Python. *)
#[local] Set Warnings "-inexact-float".

(** ** Python exceptions and results *)

Inductive exn : Type :=
| IndexError
| ValueError
| KeyError
| TypeError
| OverflowError.

Inductive result (A : Type) : Type :=
| Ok (a : A)
| Raise (e : exn).

Arguments Ok {A} a.
Arguments Raise {A} e.

Definition rbind {A B : Type} (r : result A) (k : A -> result B) : result B :=
  match r with
  | Ok a => k a
  | Raise e => Raise e
  end.

Notation "'try' x <- r ; k" := (rbind r (fun x => k))
  (at level 10, x name, r at level 100, k at level 200).

(** [d[k]] for a key that a dictionary may or may not carry. *)
Definition key_get {V : Type} (field : option V) : result V :=
  match field with
  | Some v => Ok v
  | None => Raise KeyError
  end.

(** ** Python string operations *)

Module PyStr.

(** [len(s)] *)
Abbreviation len := String.length.

(** [s.startswith(p)] *)
Fixpoint startswith (p s : string) : bool :=
  match p, s with
  | EmptyString, _ => true
  | String _ _, EmptyString => false
  | String a p', String b s' => if Ascii.eqb a b then startswith p' s' else false
  end.

(** [s[n:]] *)
Fixpoint drop (n : nat) (s : string) : string :=
  match n, s with
  | O, _ => s
  | S _, EmptyString => EmptyString
  | S n', String _ s' => drop n' s'
  end.

(** [s[:n]] *)
Fixpoint take (n : nat) (s : string) : string :=
  match n, s with
  | O, _ => EmptyString
  | S _, EmptyString => EmptyString
  | S n', String c s' => String c (take n' s')
  end.

(** [s.find(sep)]: index of the leftmost occurrence, [None] for [-1]. *)
Fixpoint find (sep s : string) : option nat :=
  if startswith sep s then Some 0
  else match s with
       | EmptyString => None
       | String _ s' => option_map S (find sep s')
       end.

(** [sep in s] *)
Definition contains (sep s : string) : bool :=
  match find sep s with Some _ => true | None => false end.

(** [s.count(c)] for a single character [c]. *)
Fixpoint count_char (c : ascii) (s : string) : nat :=
  match s with
  | EmptyString => 0
  | String d s' => (if Ascii.eqb c d then 1 else 0) + count_char c s'
  end.

(** Last character of [s] ([s[-1]] when [s] is not empty). *)
Fixpoint last_char (s : string) : option ascii :=
  match s with
  | EmptyString => None
  | String c EmptyString => Some c
  | String _ s' => last_char s'
  end.

(** [s.split(sep)] for a non-empty separator: cut at the leftmost
    occurrence, continue behind it.  The fuel bounds the number of cuts;
    [split] supplies more than any string needs. *)
Fixpoint split_fuel (fuel : nat) (sep s : string) : list string :=
  match fuel with
  | O => [s]
  | S f =>
      match find sep s with
      | None => [s]
      | Some i => take i s :: split_fuel f sep (drop (i + len sep) s)
      end
  end.

Definition split (sep s : string) : list string :=
  split_fuel (S (len s)) sep s.

(** [sep.join(l)] *)
Fixpoint join (sep : string) (l : list string) : string :=
  match l with
  | [] => EmptyString
  | [x] => x
  | x :: l' => x +:+ sep +:+ join sep l'
  end.

(** Truthiness of a string: [bool(s)]. *)
Definition truthy (s : string) : bool :=
  match s with EmptyString => false | String _ _ => true end.

(** [l[i]], raising [IndexError] when out of range. *)
Definition getitem {A : Type} (l : list A) (i : nat) : result A :=
  match nth_error l i with
  | Some x => Ok x
  | None => Raise IndexError
  end.

End PyStr.

(** ** Python values *)

Module PyVal.

(** The values that travel as [Any]: states of controls, entries of a
    player snapshot. *)
Inductive pyval : Type :=
| VNone
| VBool (b : bool)
| VInt (z : Z)
| VFloat (f : float)
| VStr (s : string).

(** [bool(v)] *)
Definition truthy (v : pyval) : bool :=
  match v with
  | VNone => false
  | VBool b => b
  | VInt z => negb (Z.eqb z 0)
  | VFloat f => negb (PrimFloat.eqb f 0)
  | VStr s => PyStr.truthy s
  end.

(** An [int] as a binary float of exponent 0; the mantissa is the
    integer itself, of any size. *)
Definition int_mantissa (z : Z) : spec_float :=
  match z with
  | Z0 => S754_zero false
  | Zpos p => S754_finite false p 0
  | Zneg p => S754_finite true p 0
  end.

(** [z / 100] for an [int]: Python divides the exact integers and rounds
    the quotient once, to the nearest double, ties to even; a quotient
    beyond the doubles raises [OverflowError]. *)
Definition int_div100 (z : Z) : result float :=
  match SFdiv prec emax (int_mantissa z) (int_mantissa 100) with
  | S754_infinity _ => Raise OverflowError
  | quotient => Ok (SF2Prim quotient)
  end.

(** [v / 100]; a [bool] divides as the integer it is. *)
Definition div100 (v : pyval) : result float :=
  match v with
  | VBool b => int_div100 (if b then 1 else 0)
  | VInt z => int_div100 z
  | VFloat f => Ok (f / 100)%float
  | VNone | VStr _ => Raise TypeError
  end.

End PyVal.

(** ** The Home Assistant state machine, as the integration sees it *)

Module Hass.

(** A state object.  Of its attributes only those the integration reads
    are kept; [None] is a missing key. *)
Record State : Type := {
  entity_id : string;
  domain : string;
  name : string;
  state : string;
  mass_player_id : option string;
  source_list : option (list string);
  source : option string;
  volume_level : option float
}.

(** [hass.states]: the state objects in insertion order. *)
Definition states := list State.

(** [x in l] for a list of strings. *)
Definition str_in (x : string) (l : list string) : bool :=
  existsb (String.eqb x) l.

(** [hass.states.get(entity_id)] *)
Definition states_get (hass : states) (eid : string) : option State :=
  List.find (fun e => String.eqb (entity_id e) eid) hass.

(** [hass.states.async_all(domains)] *)
Definition async_all (hass : states) (domains : list string) : list State :=
  List.filter (fun e => str_in (domain e) domains) hass.

(** The data of a service call. *)
Record service_data : Type := {
  sd_entity_id : string;
  sd_source : option string;
  sd_volume_level : option float
}.

(** [hass.services.async_call(domain, service, data)] *)
Record service_call : Type := {
  call_domain : string;
  call_service : string;
  call_data : service_data
}.

End Hass.

(** ** player_controls.py *)

Module PlayerControls.

Import PyVal.

(** Constants of Home Assistant that the module imports. *)
Definition INPUT_BOOLEAN_DOMAIN := "input_boolean".
Definition MEDIA_PLAYER_DOMAIN := "media_player".
Definition SWITCH_DOMAIN := "switch".
Definition SERVICE_TURN_OFF := "turn_off".
Definition SERVICE_TURN_ON := "turn_on".
Definition SERVICE_VOLUME_SET := "volume_set".
Definition STATE_OFF := "off".
Definition STATE_UNAVAILABLE := "unavailable".
Definition STATE_UNKNOWN := "unknown".

Definition OFF_STATES : list string := [STATE_OFF; STATE_UNAVAILABLE; STATE_UNKNOWN].

(** [CONTROL_TYPE_POWER = 0], [CONTROL_TYPE_VOLUME = 1] *)
Inductive control_type_t : Type :=
| CONTROL_TYPE_POWER
| CONTROL_TYPE_VOLUME.

(** The dictionary describing a candidate.  A volume control carries no
    ["source"] key. *)
Record control : Type := {
  control_type : control_type_t;
  control_id : string;
  provider_name : string;
  name : string;
  entity_id : string;
  source : option string
}.

#[export] Instance control_type_eq_dec : EqDecision control_type_t.
Proof. solve_decision. Defined.

#[export] Instance control_eq_dec : EqDecision control.
Proof. solve_decision. Defined.

(** The candidate appended for one entry of the source list. *)
Definition power_control (entity : Hass.State) (src : string) : control :=
  if PyStr.truthy src
  then {| control_type := CONTROL_TYPE_POWER;
          control_id := Hass.entity_id entity +:+ "_power_" +:+ src;
          provider_name := "Home Assistant";
          name := Hass.name entity +:+ " (" +:+ Hass.entity_id entity +:+ "): " +:+ src;
          entity_id := Hass.entity_id entity;
          source := Some src |}
  else {| control_type := CONTROL_TYPE_POWER;
          control_id := Hass.entity_id entity +:+ "_power";
          provider_name := "Home Assistant";
          name := Hass.name entity +:+ " (" +:+ Hass.entity_id entity +:+ ")";
          entity_id := Hass.entity_id entity;
          source := Some src |}.

Definition volume_control (entity : Hass.State) : control :=
  {| control_type := CONTROL_TYPE_VOLUME;
     control_id := Hass.entity_id entity +:+ "_volume";
     provider_name := "Home Assistant";
     name := Hass.name entity +:+ " (" +:+ Hass.entity_id entity +:+ ")";
     entity_id := Hass.entity_id entity;
     source := None |}.

(** Truthiness of [entity.attributes.get("mass_player_id")]. *)
Definition is_mass_player (entity : Hass.State) : bool :=
  match Hass.mass_player_id entity with
  | Some s => PyStr.truthy s
  | None => false
  end.

(** One round of the outer loop of [async_get_playercontrol_entities]. *)
Definition scan_entity (controls : list control) (entity : Hass.State) : list control :=
  if is_mass_player entity then controls
  else
    let source_list := default [""] (Hass.source_list entity) in
    let controls :=
      fold_left (fun acc src => acc ++ [power_control entity src])
        source_list controls in
    if String.eqb (Hass.domain entity) MEDIA_PLAYER_DOMAIN
    then controls ++ [volume_control entity]
    else controls.

Definition async_get_playercontrol_entities (hass : Hass.states) : list control :=
  fold_left scan_entity
    (Hass.async_all hass [SWITCH_DOMAIN; MEDIA_PLAYER_DOMAIN; INPUT_BOOLEAN_DOMAIN])
    [].

(** The two option lists of the config entry; [None] is a missing key. *)
Record config_options_t : Type := {
  power_control_entities : option (list string);
  volume_control_entities : option (list string)
}.

(** The bridge object: [self.config_options] and
    [self._registered_controls]. *)
Record HassPlayerControls : Type := {
  config_options : config_options_t;
  _registered_controls : gmap string (list control)
}.

(** [mass.register_player_control(...)]; [reg_cb_control] is the control
    bound into the callback. *)
Record register_call : Type := {
  reg_control_type : control_type_t;
  reg_control_id : string;
  reg_provider_name : string;
  reg_name : string;
  reg_state : pyval;
  reg_cb_control : control
}.

(** [mass.update_player_control(control_id, new_state)] *)
Record update_call : Type := {
  upd_control_id : string;
  upd_state : pyval
}.

(** A state-changed event: [event.data["entity_id"]] and
    [event.data["new_state"]]. *)
Record Event : Type := {
  ev_entity_id : string;
  ev_new_state : option Hass.State
}.

(** [control["control_type"] == CONTROL_TYPE_POWER and control["source"]] *)
Definition sourced_power (c : control) : result (option string) :=
  match control_type c with
  | CONTROL_TYPE_POWER =>
      try src <- key_get (source c);
      Ok (if PyStr.truthy src then Some src else None)
  | CONTROL_TYPE_VOLUME => Ok None
  end.

(** [hass.services.async_call(entity.domain, service, data)] with
    [data] made of the entity id and, where given, a source or a level. *)
Definition entity_call (entity : Hass.State) (eid service : string)
    (src : option string) (level : option float) : Hass.service_call :=
  {| Hass.call_domain := Hass.domain entity;
     Hass.call_service := service;
     Hass.call_data := {| Hass.sd_entity_id := eid;
                          Hass.sd_source := src;
                          Hass.sd_volume_level := level |} |}.

(** The service calls awaited by one request of the server. *)
Definition async_set_player_control_state (hass : Hass.states)
    (c : control) (new_state : pyval) : result (list Hass.service_call) :=
  let eid := entity_id c in
  match Hass.states_get hass eid with
  | None => Ok []
  | Some entity =>
      try sp <- sourced_power c;
      match sp with
      | Some src =>
          if truthy new_state && String.eqb (Hass.state entity) "off"
          then Ok [entity_call entity eid "select_source" (Some src) None]
          else if decide (Hass.source entity = Some src)
          then Ok [entity_call entity eid SERVICE_TURN_OFF None None]
          else Ok []
      | None =>
          match control_type c with
          | CONTROL_TYPE_POWER =>
              let service :=
                if truthy new_state then SERVICE_TURN_ON else SERVICE_TURN_OFF in
              Ok [entity_call entity eid service None None]
          | CONTROL_TYPE_VOLUME =>
              try level <- div100 new_state;
              Ok [entity_call entity eid SERVICE_VOLUME_SET None (Some level)]
          end
      end
  end.

(** [entity.attributes.get(ATTR_MEDIA_VOLUME_LEVEL, 0) * 100] *)
Definition volume_times_100 (entity : Hass.State) : pyval :=
  match Hass.volume_level entity with
  | Some f => VFloat (f * 100)%float
  | None => VInt 0
  end.

(** [entity.state not in OFF_STATES] *)
Definition not_off (entity : Hass.State) : bool :=
  negb (Hass.str_in (Hass.state entity) OFF_STATES).

(** The state pushed for one control in [async_hass_state_event]. *)
Definition pushed_state (state_obj : Hass.State) (c : control) : result pyval :=
  try sp <- sourced_power c;
  match sp with
  | Some src =>
      Ok (VBool (String.eqb (default "" (Hass.source state_obj)) src))
  | None =>
      match control_type c with
      | CONTROL_TYPE_POWER => Ok (VBool (not_off state_obj))
      | CONTROL_TYPE_VOLUME => Ok (volume_times_100 state_obj)
      end
  end.

(** The loop of [async_hass_state_event] over the controls of an entity. *)
Fixpoint push_all (state_obj : Hass.State) (controls : list control)
    : result (list update_call) :=
  match controls with
  | [] => Ok []
  | c :: rest =>
      try st <- pushed_state state_obj c;
      try calls <- push_all state_obj rest;
      Ok ({| upd_control_id := control_id c; upd_state := st |} :: calls)
  end.

Definition async_hass_state_event (self : HassPlayerControls) (event : Event)
    : result (list update_call) :=
  match _registered_controls self !! ev_entity_id event with
  | None => Ok []
  | Some _ =>
      match ev_new_state event with
      | None => Ok []
      | Some state_obj =>
          try controls <-
            key_get (_registered_controls self !! Hass.entity_id state_obj);
          push_all state_obj controls
      end
  end.

(** The two statements that store a control under its entity. *)
Definition store_control (registered : gmap string (list control))
    (eid : string) (c : control) : gmap string (list control) :=
  let registered :=
    match registered !! eid with
    | None => <[eid := []]> registered
    | Some _ => registered
    end in
  let l := default [] (registered !! eid) in
  if decide (c ∈ l) then registered else <[eid := l ++ [c]]> registered.

(** One round of the loop of [async_register_player_controls]. *)
Definition register_one (hass : Hass.states) (enabled_controls : list string)
    (acc : gmap string (list control) * list register_call) (c : control)
    : gmap string (list control) * list register_call :=
  if negb (Hass.str_in (control_id c) enabled_controls) then acc
  else
    match Hass.states_get hass (entity_id c) with
    | None => acc
    | Some entity =>
        let cur_state :=
          match control_type c with
          | CONTROL_TYPE_VOLUME => volume_times_100 entity
          | CONTROL_TYPE_POWER => VBool (not_off entity)
          end in
        (store_control (fst acc) (Hass.entity_id entity) c,
         snd acc ++ [{| reg_control_type := control_type c;
                        reg_control_id := control_id c;
                        reg_provider_name := "Home Assistant";
                        reg_name := name c;
                        reg_state := cur_state;
                        reg_cb_control := c |}])
    end.

Definition enabled_controls (opts : config_options_t) : list string :=
  default [] (power_control_entities opts) ++ default [] (volume_control_entities opts).

(** Returns the bridge after the call and the registrations awaited. *)
Definition async_register_player_controls (self : HassPlayerControls)
    (hass : Hass.states) : HassPlayerControls * list register_call :=
  let r :=
    fold_left (register_one hass (enabled_controls (config_options self)))
      (async_get_playercontrol_entities hass)
      (_registered_controls self, []) in
  ({| config_options := config_options self; _registered_controls := fst r |},
   snd r).

(** [HassPlayerControls(hass, mass, config_options)] *)
Definition init (opts : config_options_t) : HassPlayerControls :=
  {| config_options := opts; _registered_controls := ∅ |}.

(** The config entry hands the bridge its options; a changed enabled-set
    reaches [async_register_player_controls] through them. *)
Definition with_options (self : HassPlayerControls) (opts : config_options_t)
    : HassPlayerControls :=
  {| config_options := opts; _registered_controls := _registered_controls self |}.

(** The table lists [c] under the entity [k]. *)
Definition has (t : gmap string (list control)) (k : string) (c : control) : Prop :=
  exists l, t !! k = Some l /\ c ∈ l.

(** All controls of the table, entity by entity. *)
Definition registered_list (self : HassPlayerControls) : list control :=
  concat (map snd (map_to_list (_registered_controls self))).

End PlayerControls.

(** ** media_source.py *)

Module MediaSource.

(** Constants of Home Assistant's [media_player.const] and
    [media_source.const] that the module imports. *)
Definition MEDIA_CLASS_ALBUM := "album".
Definition MEDIA_CLASS_ARTIST := "artist".
Definition MEDIA_CLASS_DIRECTORY := "directory".
Definition MEDIA_CLASS_MUSIC := "music".
Definition MEDIA_CLASS_PLAYLIST := "playlist".
Definition MEDIA_CLASS_TRACK := "track".
Definition MEDIA_TYPE_ALBUM := "album".
Definition MEDIA_TYPE_ARTIST := "artist".
Definition MEDIA_TYPE_PLAYLIST := "playlist".
Definition MEDIA_TYPE_TRACK := "track".
Definition URI_SCHEME := "media-source://".

Definition MEDIA_TYPE_RADIO := "radio".
Definition CONTENT_TYPE_AUDIO := "audio".
Definition ITEM_ID_SEPERATOR := "###".

Definition PLAYABLE_MEDIA_TYPES : list string :=
  [MEDIA_TYPE_PLAYLIST; MEDIA_TYPE_ALBUM; MEDIA_TYPE_ARTIST;
   MEDIA_TYPE_RADIO; MEDIA_TYPE_TRACK].

(** The entries of [CONTENT_TYPE_MEDIA_CLASS]: parent class and children
    class ([None] is Python's [None]). *)
Definition CONTENT_TYPE_MEDIA_CLASS : list (string * (string * option string)) :=
  [("playlists", (MEDIA_CLASS_DIRECTORY, Some MEDIA_CLASS_PLAYLIST));
   ("artists", (MEDIA_CLASS_DIRECTORY, Some MEDIA_CLASS_ARTIST));
   ("albums", (MEDIA_CLASS_DIRECTORY, Some MEDIA_CLASS_ALBUM));
   ("tracks", (MEDIA_CLASS_DIRECTORY, Some MEDIA_CLASS_TRACK));
   ("radios", (MEDIA_CLASS_DIRECTORY, Some MEDIA_CLASS_MUSIC));
   (MEDIA_TYPE_PLAYLIST, (MEDIA_CLASS_PLAYLIST, Some MEDIA_CLASS_TRACK));
   (MEDIA_TYPE_ALBUM, (MEDIA_CLASS_ALBUM, Some MEDIA_CLASS_TRACK));
   (MEDIA_TYPE_ARTIST, (MEDIA_CLASS_ARTIST, Some MEDIA_CLASS_ALBUM));
   (MEDIA_TYPE_TRACK, (MEDIA_CLASS_DIRECTORY, None));
   (MEDIA_TYPE_RADIO, (MEDIA_CLASS_DIRECTORY, None))].

(** [d[k]] on a dictionary literal, raising [KeyError]. *)
Fixpoint dict_get {V : Type} (d : list (string * V)) (k : string) : result V :=
  match d with
  | [] => Raise KeyError
  | (k', v) :: d' => if String.eqb k' k then Ok v else dict_get d' k
  end.

(** A Music Assistant media item, as far as the module reads it.
    [artist] is [media_item["artist"]["name"]], [artists] holds the
    [name] of every entry of [media_item["artists"]]; either key may be
    missing. *)
Record media_item : Type := {
  mi_media_type : string;
  mi_name : string;
  mi_provider : string;
  mi_item_id : string;
  mi_artist : option string;
  mi_artists : option (list string)
}.

(** The server handle: its id and the image lookup it answers. *)
Record MusicAssistant : Type := {
  server_id : string;
  get_media_item_image_url : media_item -> option string
}.

Record BrowseMedia : Type := {
  title : string;
  media_class : string;
  children_media_class : option string;
  media_content_id : string;
  media_content_type : string;
  can_play : bool;
  can_expand : bool;
  thumbnail : option string;
  identifier : string;
  domain : string
}.

(** The dictionary returned by [async_parse_uri]. *)
Record parsed_uri : Type := {
  item_id : string;
  provider : string;
  media_type : string;
  mass_id : string;
  content_id : string
}.

(** A field with neither the delimiter nor the separator in it. *)
Definition plain_field (f : string) : bool :=
  negb (PyStr.contains "/" f) && negb (PyStr.contains ITEM_ID_SEPERATOR f).

Section WithDomain.

(** [DOMAIN] comes from the integration's [const] module. *)
Variable DOMAIN : string.

Definition MASS_URI_SCHEME : string := URI_SCHEME +:+ DOMAIN +:+ "/".

(** The identifier built at the end of [async_create_media_item_source]. *)
Definition item_identifier (srv mtype prov iid : string) : string :=
  srv +:+ "/" +:+ mtype +:+ "/" +:+ (prov +:+ ITEM_ID_SEPERATOR +:+ iid).

Definition async_create_media_item_source
    (mass : MusicAssistant) (item : media_item) : result BrowseMedia :=
  let mtype := mi_media_type item in
  try mclass <- dict_get CONTENT_TYPE_MEDIA_CLASS mtype;
  let image := get_media_item_image_url mass item in
  (* first [if]: computes the album title *)
  try title0 <-
    (if String.eqb mtype "album"
     then try a <- key_get (mi_artist item);
          Ok (Some (a +:+ " - " +:+ mi_name item))
     else Ok None);
  (* second [if] with its [else]: assigns the title in both branches *)
  try title1 <-
    (if String.eqb mtype "track"
     then try names <- key_get (mi_artists item);
          Ok (PyStr.join " / " names +:+ " - " +:+ mi_name item)
     else Ok (mi_name item));
  let ident := item_identifier (server_id mass) mtype
                 (mi_provider item) (mi_item_id item) in
  Ok {| title := title1;
        media_class := fst mclass;
        children_media_class := snd mclass;
        media_content_id := MASS_URI_SCHEME +:+ ident;
        media_content_type := CONTENT_TYPE_AUDIO;
        can_play := Hass.str_in mtype PLAYABLE_MEDIA_TYPES;
        can_expand := negb (Hass.str_in mtype [MEDIA_TYPE_TRACK; MEDIA_TYPE_RADIO]);
        thumbnail := image;
        identifier := ident;
        domain := DOMAIN |}.

(** The uri after the two prefix tests of [async_parse_uri]. *)
Definition strip_uri (uri : string) : result string :=
  try uri1 <-
    (if PyStr.startswith MASS_URI_SCHEME uri
     then PyStr.getitem (PyStr.split MASS_URI_SCHEME uri) 1
     else Ok uri);
  Ok (if PyStr.startswith "/" uri1 then PyStr.drop 1 uri1 else uri1).

(** [provider, item_id = content_id.split(ITEM_ID_SEPERATOR)] *)
Definition unpack2 (l : list string) : result (string * string) :=
  match l with
  | [a; b] => Ok (a, b)
  | _ => Raise ValueError
  end.

Definition async_parse_uri (uri : string) : result parsed_uri :=
  try uri <- strip_uri uri;
  try mass_id <- PyStr.getitem (PyStr.split "/" uri) 0;
  try media_type <- PyStr.getitem (PyStr.split "/" uri) 1;
  try rest <-
    (if Nat.ltb 2 (List.length (PyStr.split "/" uri))
     then try content_id <- PyStr.getitem (PyStr.split "/" uri) 2;
          if PyStr.truthy content_id
          then try pi <- unpack2 (PyStr.split ITEM_ID_SEPERATOR content_id);
               Ok (content_id, fst pi, snd pi)
          else Ok (content_id, "", "")
     else Ok ("", "", ""));
  Ok {| item_id := snd rest;
        provider := snd (fst rest);
        media_type := media_type;
        mass_id := mass_id;
        content_id := fst (fst rest) |}.

End WithDomain.

End MediaSource.

(** ** media_player.py: the table of player entities *)

Module MediaPlayer.

Import PyVal.

(** A player snapshot as the server sends it: a dictionary. *)
Abbreviation snapshot := (gmap string pyval).

(** The cached state of a [MassPlayer] entity. *)
Record MassPlayer : Type := {
  _player_data : snapshot;
  _queue_data : snapshot;
  _queue_cur_item : snapshot;
  _cur_image : option string
}.

(** What the handlers ask of Home Assistant. *)
Inductive effect : Type :=
| AddEntities (player : MassPlayer)
| DispatcherSend (player_id : string) (player_data : snapshot)
| WriteHaState (player : MassPlayer).

(** [player_data["player_id"]]; Music Assistant sends player ids as
    strings, another value is rejected here. *)
Definition snapshot_player_id (player_data : snapshot) : result string :=
  try v <- key_get (player_data !! "player_id");
  match v with
  | VStr s => Ok s
  | _ => Raise TypeError
  end.

(** [MassPlayer(mass, player_data)] *)
Definition init (player_data : snapshot) : MassPlayer :=
  {| _player_data := player_data;
     _queue_data := ∅;
     _queue_cur_item := ∅;
     _cur_image := None |}.

(** The [player_id] property. *)
Definition player_id (self : MassPlayer) : result string :=
  snapshot_player_id (_player_data self).

(** [media_players]: the entities by player id, in insertion order. *)
Definition media_players_t := list (string * MassPlayer).

(** [player_id in media_players] *)
Definition has_player (media_players : media_players_t) (pid : string) : bool :=
  existsb (fun kp => String.eqb (fst kp) pid) media_players.

Definition async_update_media_player (media_players : media_players_t)
    (player_data : snapshot) : result (media_players_t * list effect) :=
  try pid <- snapshot_player_id player_data;
  if negb (has_player media_players pid)
  then
    try available <- key_get (player_data !! "available");
    if negb (truthy available)
    then Ok (media_players, [])
    else
      let media_player := init player_data in
      Ok (media_players ++ [(pid, media_player)], [AddEntities media_player])
  else Ok (media_players, [DispatcherSend pid player_data]).

Definition async_update_callback (self : MassPlayer) (player_data : snapshot)
    : MassPlayer * list effect :=
  let self' :=
    {| _player_data := player_data;
       _queue_data := _queue_data self;
       _queue_cur_item := _queue_cur_item self;
       _cur_image := _cur_image self |} in
  (self', [WriteHaState self']).

Definition async_mark_unavailable (self : MassPlayer) : MassPlayer * list effect :=
  let self' :=
    {| _player_data := <["available" := VBool false]> (_player_data self);
       _queue_data := _queue_data self;
       _queue_cur_item := _queue_cur_item self;
       _cur_image := _cur_image self |} in
  (self', [WriteHaState self']).

(** The loop over [media_players.values()]. *)
Fixpoint async_remove_media_player (media_players : media_players_t)
    (pid : string) : result (media_players_t * list effect) :=
  match media_players with
  | [] => Ok ([], [])
  | (k, player) :: rest =>
      try ppid <- player_id player;
      let r := if negb (String.eqb ppid pid) then (player, [])
               else async_mark_unavailable player in
      try rest' <- async_remove_media_player rest pid;
      Ok ((k, fst r) :: fst rest', snd r ++ snd rest')
  end.


End MediaPlayer.

(** ** Sample inputs *)

Module Samples.

Import PyVal.

Definition DOMAIN : string := "music_assistant".

Definition receiver : Hass.State :=
  {| Hass.entity_id := "media_player.receiver";
     Hass.domain := "media_player";
     Hass.name := "Receiver";
     Hass.state := "playing";
     Hass.mass_player_id := None;
     Hass.source_list := Some ["TV"; "CD"];
     Hass.source := Some "CD";
     Hass.volume_level := Some 0x1p-1%float |}.

(** The same receiver switched off; it remembers its source. *)
Definition receiver_off : Hass.State :=
  {| Hass.entity_id := "media_player.receiver";
     Hass.domain := "media_player";
     Hass.name := "Receiver";
     Hass.state := "off";
     Hass.mass_player_id := None;
     Hass.source_list := Some ["TV"; "CD"];
     Hass.source := Some "CD";
     Hass.volume_level := Some 0x1p-1%float |}.

(** A player of Music Assistant itself, as Home Assistant lists it. *)
Definition mass_kitchen : Hass.State :=
  {| Hass.entity_id := "media_player.mass_kitchen";
     Hass.domain := "media_player";
     Hass.name := "Kitchen";
     Hass.state := "idle";
     Hass.mass_player_id := Some "kitchen";
     Hass.source_list := None;
     Hass.source := None;
     Hass.volume_level := Some 0x1p-2%float |}.

Definition receiver_tv : PlayerControls.control :=
  PlayerControls.power_control receiver "TV".

Definition receiver_cd : PlayerControls.control :=
  PlayerControls.power_control receiver "CD".

Definition receiver_volume : PlayerControls.control :=
  PlayerControls.volume_control receiver.

Definition options (power volume : list string) : PlayerControls.config_options_t :=
  {| PlayerControls.power_control_entities := Some power;
     PlayerControls.volume_control_entities := Some volume |}.

(** The bridge after registering three controls, and after registering
    again with the volume control alone. *)
Definition bridge_all : PlayerControls.HassPlayerControls :=
  fst (PlayerControls.async_register_player_controls
         (PlayerControls.init
            (options ["media_player.receiver_power_TV";
                      "media_player.receiver_power_CD"]
                     ["media_player.receiver_volume"]))
         [receiver]).

Definition volume_only : PlayerControls.config_options_t :=
  options [] ["media_player.receiver_volume"].

Definition server (id : string) : MediaSource.MusicAssistant :=
  {| MediaSource.server_id := id;
     MediaSource.get_media_item_image_url := fun _ => None |}.

Definition album (prov iid : string) : MediaSource.media_item :=
  {| MediaSource.mi_media_type := "album";
     MediaSource.mi_name := "Abbey Road";
     MediaSource.mi_provider := prov;
     MediaSource.mi_item_id := iid;
     MediaSource.mi_artist := Some "The Beatles";
     MediaSource.mi_artists := None |}.

Definition track : MediaSource.media_item :=
  {| MediaSource.mi_media_type := "track";
     MediaSource.mi_name := "Under Pressure";
     MediaSource.mi_provider := "spotify";
     MediaSource.mi_item_id := "7";
     MediaSource.mi_artist := None;
     MediaSource.mi_artists := Some ["Queen"; "David Bowie"] |}.

Definition kitchen : MediaPlayer.snapshot :=
  {[ "player_id" := VStr "kitchen"; "available" := VBool true;
     "name" := VStr "Kitchen"; "volume_level" := VInt 40 ]}.

Definition kitchen_off : MediaPlayer.snapshot :=
  {[ "player_id" := VStr "kitchen"; "available" := VBool false;
     "name" := VStr "Kitchen"; "volume_level" := VInt 40 ]}.

End Samples.

(** ** media_source.py: listings and resolution *)

Module Browse.

Import MediaSource.

Definition LIBRARY_MAP : list (string * string) :=
  [("playlists", "Playlists"); ("artists", "Artists"); ("albums", "Albums");
   ("tracks", "Tracks"); ("radios", "Radios")].

(** [d.get(k)] *)
Fixpoint dict_find {V : Type} (d : list (string * V)) (k : string) : option V :=
  match d with
  | [] => None
  | (k', v) :: d' => if String.eqb k' k then Some v else dict_find d' k
  end.

(** [s.endswith(suf)] *)
Definition endswith (suf s : string) : bool :=
  String.eqb (PyStr.drop (PyStr.len s - PyStr.len suf) s) suf.

(** What the browse level raises beside the exceptions of the codec. *)
Inductive browse_exn : Type :=
| Python (e : exn)
| BrowseError (msg : string)
| AttributeError.

Inductive outcome (A : Type) : Type :=
| Return (a : A)
| Throw (e : browse_exn).

Arguments Return {A} a.
Arguments Throw {A} e.

Definition lift {A : Type} (r : result A) : outcome A :=
  match r with
  | Ok a => Return a
  | Raise e => Throw (Python e)
  end.

Definition obind {A B : Type} (r : outcome A) (k : A -> outcome B) : outcome B :=
  match r with
  | Return a => k a
  | Throw e => Throw e
  end.

Notation "'await' x <- r ; k" := (obind r (fun x => k))
  (at level 10, x name, r at level 100, k at level 200).

(** A [BrowseMediaSource] without its children. *)
Record BrowseMediaSource : Type := {
  src_domain : string;
  src_identifier : string;
  src_title : option string;
  src_media_class : string;
  src_children_media_class : option string;
  src_media_content_type : string;
  src_can_play : bool;
  src_can_expand : bool;
  src_thumbnail : option string
}.

Record PlayMedia : Type := {
  url : string;
  mime_type : string
}.

(** A connected server: the handle of the codec, its name and base url,
    and the answers to the catalogue queries the listings await. *)
Record Server : Type := {
  mass : MusicAssistant;
  server_name : string;
  base_url : string;
  get_library_playlists : list media_item;
  get_library_artists : list media_item;
  get_library_albums : list media_item;
  get_library_tracks : list media_item;
  get_library_radios : list media_item;
  get_playlist : string -> string -> media_item;
  get_playlist_tracks : string -> string -> list media_item;
  get_album : string -> string -> media_item;
  get_album_tracks : string -> string -> list media_item;
  get_artist : string -> string -> media_item;
  get_artist_albums : string -> string -> list media_item
}.

(** A source with its children. *)
Definition server_listing : Type := BrowseMediaSource * list BrowseMediaSource.

(** The source of an item listing is a media item node or a generic
    source; its children are media item nodes. *)
Definition item_listing : Type :=
  (BrowseMedia + BrowseMediaSource) * list BrowseMedia.

Inductive root_listing : Type :=
| SingleServer (l : server_listing)
| Root (root : BrowseMediaSource) (children : list server_listing).

Inductive browse_result : Type :=
| RootResult (r : root_listing)
| ServerResult (l : server_listing)
| ItemResult (l : item_listing).

(** [media[key]] on the dictionary that [async_parse_uri] returns. *)
Definition parsed_getitem (media : parsed_uri) (key : string) : result string :=
  if String.eqb key "item_id" then Ok (item_id media)
  else if String.eqb key "provider" then Ok (provider media)
  else if String.eqb key "media_type" then Ok (media_type media)
  else if String.eqb key "mass_id" then Ok (mass_id media)
  else if String.eqb key "content_id" then Ok (content_id media)
  else Raise KeyError.

Section WithConst.

(** [DOMAIN] and [DEFAULT_NAME] come from the integration's [const]
    module. *)
Variable DOMAIN : string.
Variable DEFAULT_NAME : string.

Definition async_create_server_listing (srv : Server) : server_listing :=
  let parent_source :=
    {| src_domain := DOMAIN;
       src_identifier := server_id (mass srv) +:+ "/root";
       src_title := Some (DEFAULT_NAME +:+ " (" +:+ server_name srv +:+ ")");
       src_media_class := MEDIA_CLASS_DIRECTORY;
       src_children_media_class := None;
       src_media_content_type := CONTENT_TYPE_AUDIO;
       src_can_play := false;
       src_can_expand := true;
       src_thumbnail := None |} in
  (parent_source,
   fold_left
     (fun children kv =>
        children ++
        [{| src_domain := DOMAIN;
            src_identifier := server_id (mass srv) +:+ "/" +:+ fst kv;
            src_title := Some (snd kv);
            src_media_class := MEDIA_CLASS_DIRECTORY;
            src_children_media_class := None;
            src_media_content_type := CONTENT_TYPE_AUDIO;
            src_can_play := false;
            src_can_expand := true;
            src_thumbnail := None |}])
     LIBRARY_MAP []).

Definition async_create_root_listing (instances : list Server) : root_listing :=
  match instances with
  | [srv] => SingleServer (async_create_server_listing srv)
  | _ =>
      Root
        {| src_domain := DOMAIN;
           src_identifier := "root";
           src_title := Some "Root";
           src_media_class := MEDIA_CLASS_DIRECTORY;
           src_children_media_class := None;
           src_media_content_type := CONTENT_TYPE_AUDIO;
           src_can_play := false;
           src_can_expand := true;
           src_thumbnail := None |}
        (fold_left
           (fun children srv => children ++ [async_create_server_listing srv])
           instances [])
  end.

Definition async_create_generic_source (srv : Server) (media : parsed_uri)
    : result BrowseMediaSource :=
  try mclass <- dict_get CONTENT_TYPE_MEDIA_CLASS (media_type media);
  let title := dict_find LIBRARY_MAP (content_id media) in
  let image := "" in
  Ok {| src_domain := DOMAIN;
        src_identifier :=
          server_id (mass srv) +:+ "/" +:+ media_type media +:+ "/" +:+
          content_id media;
        src_title := title;
        src_media_class := fst mclass;
        src_children_media_class := snd mclass;
        src_media_content_type := CONTENT_TYPE_AUDIO;
        src_can_play := Hass.str_in (media_type media) PLAYABLE_MEDIA_TYPES;
        src_can_expand := true;
        src_thumbnail := Some image |}.

(** The [if]/[elif] chain of [async_create_item_listing]: the source, if
    the request names an item, and the items to attach. *)
Definition listing_parts (srv : Server) (media : parsed_uri)
    : result (option BrowseMedia * list media_item) :=
  let mt := media_type media in
  let iid := item_id media in
  let prov := provider media in
  if String.eqb mt "playlists" then Ok (None, get_library_playlists srv)
  else if String.eqb mt "artists" then Ok (None, get_library_artists srv)
  else if String.eqb mt "albums" then Ok (None, get_library_albums srv)
  else if String.eqb mt "tracks" then Ok (None, get_library_tracks srv)
  else if String.eqb mt "radios" then Ok (None, get_library_radios srv)
  else if String.eqb mt MEDIA_TYPE_PLAYLIST then
    try source <- async_create_media_item_source DOMAIN (mass srv)
                    (get_playlist srv iid prov);
    Ok (Some source, get_playlist_tracks srv iid prov)
  else if String.eqb mt MEDIA_TYPE_ALBUM then
    try source <- async_create_media_item_source DOMAIN (mass srv)
                    (get_album srv iid prov);
    Ok (Some source, get_album_tracks srv iid prov)
  else if String.eqb mt MEDIA_TYPE_ARTIST then
    try source <- async_create_media_item_source DOMAIN (mass srv)
                    (get_artist srv iid prov);
    Ok (Some source, get_artist_albums srv iid prov)
  else Ok (None, []).

(** The loop that attaches the children.  Its [except] clause names
    [MissingMediaInformation] and [UnknownMediaType], which nothing in
    the module raises: what [async_create_media_item_source] raises
    passes through. *)
Fixpoint attach_children (srv : Server) (items : list media_item)
    : result (list BrowseMedia) :=
  match items with
  | [] => Ok []
  | item :: rest =>
      try child_item <- async_create_media_item_source DOMAIN (mass srv) item;
      try children <- attach_children srv rest;
      Ok (child_item :: children)
  end.

Definition async_create_item_listing (srv : Server) (media : parsed_uri)
    : result item_listing :=
  try parts <- listing_parts srv media;
  try source <-
    match fst parts with
    | Some source => Ok (inl source)
    | None =>
        try generic <- async_create_generic_source srv media;
        Ok (inr generic)
    end;
  try children <- attach_children srv (snd parts);
  Ok (source, children).

(** The loop of [async_resolve_media] over the known servers. *)
Fixpoint resolve_in (instances : list Server) (media : parsed_uri)
    (identifier : string) : outcome PlayMedia :=
  match instances with
  | [] => Throw (BrowseError "Invalid Music Assistance instance")
  | mass_instance :: rest =>
      await wanted <- lift (parsed_getitem media "mass_server_id");
      if negb (String.eqb (server_id (mass mass_instance)) wanted)
      then resolve_in rest media identifier
      else
        await mt <- lift (parsed_getitem media "media_type");
        if Hass.str_in mt ["track"; "radio"]
        then
          await prov <- lift (parsed_getitem media "provider");
          await iid <- lift (parsed_getitem media "item_id");
          Return {| url := base_url mass_instance +:+ "/stream_media/" +:+
                           mt +:+ "/" +:+ prov +:+ "/" +:+ iid;
                    mime_type := "audio/flac" |}
        else Return {| url := identifier;
                       mime_type := "application/musicassistant" |}
  end.

Definition async_resolve_media (instances : list Server) (identifier : string)
    : outcome PlayMedia :=
  await media <- lift (async_parse_uri DOMAIN identifier);
  resolve_in instances media identifier.

(** The first server that a loop over the known servers accepts. *)
Definition first_server (instances : list Server) (wanted : string)
    : option Server :=
  List.find (fun srv => String.eqb (server_id (mass srv)) wanted) instances.

(** [MusicAssistentSource.async_browse_media]; [None] is the identifier
    [None]. *)
Definition async_browse_media (instances : list Server)
    (identifier : option string) : outcome browse_result :=
  match identifier with
  | None => Return (RootResult (async_create_root_listing instances))
  | Some identifier =>
      if endswith "/root" identifier
      then
        await mass_id <- lift (PyStr.getitem (PyStr.split "/" identifier) 1);
        match first_server instances mass_id with
        | Some srv => Return (ServerResult (async_create_server_listing srv))
        | None => Throw (BrowseError "Invalid Music Assistance instance")
        end
      else
        await media_item <- lift (async_parse_uri DOMAIN identifier);
        match first_server instances (mass_id media_item) with
        | Some srv =>
            await l <- lift (async_create_item_listing srv media_item);
            Return (ItemResult l)
        | None => Throw (BrowseError "Invalid Music Assistance instance")
        end
  end.

End WithConst.

End Browse.

(** ** media_player.py: the commands of an entity *)

Module Entity.

Import PyVal MediaSource MediaPlayer Browse.

(** What an entity awaits of its server. *)
Inductive command : Type :=
| PlayerCommand (player_id cmd : string)
| VolumeSet (player_id : string) (volume_level : Z)
| PlayMediaParsed (player_id : string) (media : parsed_uri) (queue_opt : string)
| PlayMediaItem (player_id media_type item_id provider queue_opt : string)
| PlayMediaLibrary (player_id : string) (item : media_item) (queue_opt : string)
| PlayAlert (player_id media_id : string) (volume : option Z) (announce : bool)
| PlayUri (player_id media_id queue_opt : string).

(** [int(f)]: truncation towards zero; [None] where Python raises
    ([OverflowError] for an infinity, [ValueError] for a nan). *)
Definition int_of_float (f : float) : option Z :=
  match Prim2SF f with
  | S754_zero _ => Some 0%Z
  | S754_finite sign m e =>
      let magnitude :=
        match e with
        | Z0 => Zpos m
        | Zpos p => (Zpos m * 2 ^ Zpos p)%Z
        | Zneg p => (Zpos m / 2 ^ Zpos p)%Z
        end in
      Some (if sign then (- magnitude)%Z else magnitude)
  | S754_infinity _ | S754_nan => None
  end.

(** The [volume_level] property: [self._player_data["volume_level"] / 100]. *)
Definition volume_level (self : MassPlayer) : result float :=
  try v <- key_get (_player_data self !! "volume_level");
  div100 v.

(** [async_set_volume_level]; [None] where [int] raises. *)
Definition async_set_volume_level (self : MassPlayer) (volume : float)
    : option (result (list command)) :=
  match int_of_float (volume * 100)%float with
  | None => None
  | Some n =>
      Some (try pid <- player_id self;
            Ok [VolumeSet pid n])
  end.

(** The loop over the library that plays the first item of a name. *)
Fixpoint play_by_name (self : MassPlayer) (library : list media_item)
    (media_id queue_opt : string) : result (list command) :=
  match library with
  | [] => Ok []
  | item :: rest =>
      if String.eqb (mi_name item) media_id
      then try pid <- player_id self;
           Ok [PlayMediaLibrary pid item queue_opt]
      else play_by_name self rest media_id queue_opt
  end.

Section WithConst.

Variable DOMAIN : string.
Variable DEFAULT_NAME : string.

(** [async_play_media(media_type, media_id, **kwargs)]; [enqueue] is the
    truth value of [kwargs.get(ATTR_MEDIA_ENQUEUE)]. *)
Definition async_play_media (self : MassPlayer) (srv : Server)
    (mtype media_id : string) (enqueue : bool) : result (list command) :=
  let queue_opt := if enqueue then "add" else "play" in
  if PyStr.startswith (MASS_URI_SCHEME DOMAIN) media_id
  then
    try media <- async_parse_uri DOMAIN media_id;
    try pid <- player_id self;
    Ok [PlayMediaParsed pid media queue_opt]
  else if Hass.str_in mtype PLAYABLE_MEDIA_TYPES
          && PyStr.contains ITEM_ID_SEPERATOR media_id
  then
    try pi <- unpack2 (PyStr.split ITEM_ID_SEPERATOR media_id);
    try pid <- player_id self;
    Ok [PlayMediaItem pid mtype (snd pi) (fst pi) queue_opt]
  else if negb (PyStr.contains "/" media_id) && String.eqb mtype MEDIA_TYPE_PLAYLIST
  then play_by_name self (get_library_playlists srv) media_id queue_opt
  else if negb (PyStr.contains "/" media_id) && String.eqb mtype MEDIA_TYPE_RADIO
  then play_by_name self (get_library_radios srv) media_id queue_opt
  else if PyStr.contains "tts_proxy" media_id
  then try pid <- player_id self;
       Ok [PlayAlert pid media_id None true]
  else if PyStr.contains "alert" mtype
  then try pid <- player_id self;
       Ok [PlayAlert pid media_id (Some 5%Z) false]
  else try pid <- player_id self;
       Ok [PlayUri pid media_id queue_opt].

(** [MassPlayer.async_browse_media]; [None] is Python's [None], for the
    arguments and for the result of a call that falls off the end. *)
Definition async_browse_media (srv : Server)
    (media_content_type media_content_id : option string)
    : outcome (option browse_result) :=
  await library <-
    match media_content_type with
    | None => Return true
    | Some t =>
        if String.eqb t "library" then Return true
        else match media_content_id with
             | None => Throw AttributeError
             | Some id => Return (endswith "/root" id)
             end
    end;
  if library
  then Return (Some (ServerResult (async_create_server_listing DOMAIN DEFAULT_NAME srv)))
  else
    match media_content_id with
    | None => Throw AttributeError
    | Some id =>
        if PyStr.startswith (MASS_URI_SCHEME DOMAIN) id
        then
          await media_item <- lift (async_parse_uri DOMAIN id);
          if negb (String.eqb (server_id (mass srv)) (mass_id media_item))
          then Throw (BrowseError "Invalid Music Assistance instance")
          else
            await l <- lift (async_create_item_listing DOMAIN srv media_item);
            Return (Some (ItemResult l))
        else Return None
    end.

End WithConst.

End Entity.

(** ** Predicates on the table of player entities *)

Module PlayerProps.

Import PyVal MediaPlayer.

(** No player id has two entities, and every entity stands under the
    player id of its own snapshot. *)
Definition table_ok (media_players : media_players_t) : Prop :=
  NoDup (map fst media_players) /\
  Forall (fun kp => player_id (snd kp) = Ok (fst kp)) media_players.

End PlayerProps.

(** ** Further sample inputs *)

Module MoreSamples.

Import PyVal.

(** An item of a category that the module has no media class for. *)
Definition podcast : MediaSource.media_item :=
  {| MediaSource.mi_media_type := "podcast";
     MediaSource.mi_name := "Daily News";
     MediaSource.mi_provider := "tunein";
     MediaSource.mi_item_id := "9";
     MediaSource.mi_artist := None;
     MediaSource.mi_artists := None |}.

Definition chill : MediaSource.media_item :=
  {| MediaSource.mi_media_type := "playlist";
     MediaSource.mi_name := "Chill";
     MediaSource.mi_provider := "spotify";
     MediaSource.mi_item_id := "p1";
     MediaSource.mi_artist := None;
     MediaSource.mi_artists := None |}.

Definition living_room : Browse.Server :=
  {| Browse.mass := Samples.server "srv1";
     Browse.server_name := "Living room";
     Browse.base_url := "http://mass.local:8095";
     Browse.get_library_playlists := [chill];
     Browse.get_library_artists := [];
     Browse.get_library_albums := [Samples.album "spotify" "42"];
     Browse.get_library_tracks := [Samples.track; podcast];
     Browse.get_library_radios := [];
     Browse.get_playlist := fun _ _ => chill;
     Browse.get_playlist_tracks := fun _ _ => [Samples.track];
     Browse.get_album := fun iid prov => Samples.album prov iid;
     Browse.get_album_tracks := fun _ _ => [Samples.track];
     Browse.get_artist := fun _ _ => podcast;
     Browse.get_artist_albums := fun _ _ => [] |}.

Definition DEFAULT_NAME : string := "Music Assistant".

Definition albums_request : MediaSource.parsed_uri :=
  {| MediaSource.item_id := ""; MediaSource.provider := "";
     MediaSource.media_type := "albums"; MediaSource.mass_id := "srv1";
     MediaSource.content_id := "" |}.

Definition tracks_request : MediaSource.parsed_uri :=
  {| MediaSource.item_id := ""; MediaSource.provider := "";
     MediaSource.media_type := "tracks"; MediaSource.mass_id := "srv1";
     MediaSource.content_id := "" |}.

Definition kitchen_player : MediaPlayer.MassPlayer :=
  MediaPlayer.init Samples.kitchen.

End MoreSamples.

(** ** Predicates on controls and their updates *)

Module ControlProps.

Import PyVal PlayerControls.

(** A power control carries a ["source"] key, as every candidate of
    discovery does. *)
Definition wf_control (c : control) : Prop :=
  control_type c = CONTROL_TYPE_POWER -> is_Some (source c).

(** The update that a state change of [state_obj] owes to the control
    [c]: for a sourced power control "the current source is the
    control's source", for a plain power control "the state is none of
    off, unavailable, unknown", for a volume control the level times 100
    (the integer 0 without a level). *)
Definition pushed_for (state_obj : Hass.State) (c : control)
    (call : update_call) : Prop :=
  upd_control_id call = control_id c /\
  upd_state call =
    match control_type c, source c with
    | CONTROL_TYPE_POWER, Some (String a s) =>
        VBool (bool_decide (Hass.source state_obj = Some (String a s)))
    | CONTROL_TYPE_POWER, _ =>
        VBool (negb (Hass.str_in (Hass.state state_obj)
                       ["off"; "unavailable"; "unknown"]))
    | CONTROL_TYPE_VOLUME, _ =>
        match Hass.volume_level state_obj with
        | Some f => VFloat (f * 100)%float
        | None => VInt 0
        end
    end.

(** A service call of the bridge for the control [c] and the entity
    [e]: it goes to the entity's domain and names the control's entity;
    only [select_source] carries a source (the control's) and only
    [volume_set] a level. *)
Definition targets (c : control) (e : Hass.State) (call : Hass.service_call) : Prop :=
  Hass.call_domain call = Hass.domain e /\
  Hass.sd_entity_id (Hass.call_data call) = entity_id c /\
  ((Hass.call_service call = "select_source" /\
    Hass.sd_source (Hass.call_data call) = source c /\
    Hass.sd_volume_level (Hass.call_data call) = None) \/
   (Hass.call_service call = "turn_on" /\
    Hass.sd_source (Hass.call_data call) = None /\
    Hass.sd_volume_level (Hass.call_data call) = None) \/
   (Hass.call_service call = "turn_off" /\
    Hass.sd_source (Hass.call_data call) = None /\
    Hass.sd_volume_level (Hass.call_data call) = None) \/
   (Hass.call_service call = "volume_set" /\
    control_type c = CONTROL_TYPE_VOLUME /\
    Hass.sd_source (Hass.call_data call) = None /\
    is_Some (Hass.sd_volume_level (Hass.call_data call)))).

(** The specification's rescaling of a requested volume of 0 to 100 to
    a level of 0.0 to 1.0, written out in decimal: entry [n] is the
    level for the request [n]. *)
Definition normalized_levels : list float :=
  [0.00; 0.01; 0.02; 0.03; 0.04; 0.05; 0.06; 0.07; 0.08; 0.09;
   0.10; 0.11; 0.12; 0.13; 0.14; 0.15; 0.16; 0.17; 0.18; 0.19;
   0.20; 0.21; 0.22; 0.23; 0.24; 0.25; 0.26; 0.27; 0.28; 0.29;
   0.30; 0.31; 0.32; 0.33; 0.34; 0.35; 0.36; 0.37; 0.38; 0.39;
   0.40; 0.41; 0.42; 0.43; 0.44; 0.45; 0.46; 0.47; 0.48; 0.49;
   0.50; 0.51; 0.52; 0.53; 0.54; 0.55; 0.56; 0.57; 0.58; 0.59;
   0.60; 0.61; 0.62; 0.63; 0.64; 0.65; 0.66; 0.67; 0.68; 0.69;
   0.70; 0.71; 0.72; 0.73; 0.74; 0.75; 0.76; 0.77; 0.78; 0.79;
   0.80; 0.81; 0.82; 0.83; 0.84; 0.85; 0.86; 0.87; 0.88; 0.89;
   0.90; 0.91; 0.92; 0.93; 0.94; 0.95; 0.96; 0.97; 0.98; 0.99;
   1.00]%float.

(** Every control of the table is well formed. *)
Definition wf_table (t : gmap string (list control)) : Prop :=
  forall k c, has t k c -> wf_control c.

End ControlProps.

(** * Properties *)

(** ** Stepping through the result monad *)

Lemma rbind_ok {A B : Type} (a : A) (k : A -> result B) : rbind (Ok a) k = k a.
Proof. reflexivity. Qed.

Lemma rbind_raise {A B : Type} (e : exn) (k : A -> result B) :
  rbind (Raise e) k = Raise e.
Proof. reflexivity. Qed.

Ltac rstep := rewrite ?rbind_ok, ?rbind_raise; cbv beta.

(** ** Facts about the string operations *)

Section PyStrFacts.

Import PyStr.

Local Arguments String.append : simpl nomatch.

Lemma len_app (a b : string) : len (a +:+ b) = len a + len b.
Proof.
  induction a as [|c a IH]; simpl; [reflexivity | now f_equal].
Qed.

Lemma str_app_nil (s : string) : "" +:+ s = s.
Proof. reflexivity. Qed.

Lemma str_app_cons (c : ascii) (a b : string) :
  String c a +:+ b = String c (a +:+ b).
Proof. reflexivity. Qed.

Lemma app_assoc_str (a b c : string) : (a +:+ b) +:+ c = a +:+ (b +:+ c).
Proof. induction a as [|x a IH]; simpl; [reflexivity | now f_equal]. Qed.

Lemma startswith_app_same (p r : string) : startswith p (p +:+ r) = true.
Proof.
  induction p as [|c p IH]; simpl; [reflexivity|].
  now rewrite Ascii.eqb_refl.
Qed.

Lemma startswith_len (p s : string) : startswith p s = true -> len p <= len s.
Proof.
  revert s; induction p as [|c p IH]; intros [|d s]; simpl; try lia; try discriminate.
  destruct (Ascii.eqb c d); [|discriminate].
  intros H. apply IH in H. lia.
Qed.

Lemma startswith_app_l (p x r : string) :
  len p <= len x -> startswith p (x +:+ r) = startswith p x.
Proof.
  revert x; induction p as [|c p IH]; intros [|d x]; simpl; intros Hl;
    try lia; try reflexivity.
  destruct (Ascii.eqb c d); [|reflexivity].
  apply IH. lia.
Qed.

Lemma startswith_decompose (p s : string) :
  startswith p s = true -> s = p +:+ drop (len p) s.
Proof.
  revert s; induction p as [|c p IH]; intros [|d s]; simpl;
    try reflexivity; try discriminate.
  destruct (Ascii.eqb_spec c d) as [->|]; [|discriminate].
  intros H. f_equal. now apply IH.
Qed.

Lemma startswith_cons (a b : ascii) (p s : string) :
  startswith (String a p) (String b s) =
  if Ascii.eqb a b then startswith p s else false.
Proof. reflexivity. Qed.

Lemma find_nil (sep : string) :
  find sep "" = if startswith sep "" then Some 0 else None.
Proof. reflexivity. Qed.

Lemma find_cons (sep : string) (c : ascii) (s : string) :
  find sep (String c s) =
  if startswith sep (String c s) then Some 0 else option_map S (find sep s).
Proof. reflexivity. Qed.

Lemma find_bound (sep s : string) (i : nat) :
  find sep s = Some i -> i + len sep <= len s.
Proof.
  revert i; induction s as [|c s IH]; intros i.
  - rewrite find_nil. destruct (startswith sep "") eqn:E; [|discriminate].
    intros [= <-]. now apply startswith_len in E.
  - rewrite find_cons. destruct (startswith sep (String c s)) eqn:E.
    + intros [= <-]. now apply startswith_len in E.
    + destruct (find sep s) as [j|]; [|discriminate].
      simpl. intros [= <-]. specialize (IH j eq_refl). simpl. lia.
Qed.

Lemma find_starts (sep s : string) (i : nat) :
  find sep s = Some i -> startswith sep (drop i s) = true.
Proof.
  revert i; induction s as [|c s IH]; intros i.
  - rewrite find_nil. destruct (startswith sep "") eqn:E; [|discriminate].
    now intros [= <-].
  - rewrite find_cons. destruct (startswith sep (String c s)) eqn:E.
    + now intros [= <-].
    + destruct (find sep s) as [j|]; [|discriminate].
      simpl. intros [= <-]. simpl. now apply IH.
Qed.

Lemma take_drop (n : nat) (s : string) : take n s +:+ drop n s = s.
Proof.
  revert s; induction n as [|n IH]; intros [|c s]; simpl; try reflexivity.
  now rewrite IH.
Qed.

Lemma drop_drop (n m : nat) (s : string) : drop m (drop n s) = drop (n + m) s.
Proof.
  revert s; induction n as [|n IH]; intros s; simpl; [reflexivity|].
  destruct s as [|c s]; [now destruct m | apply IH].
Qed.

Lemma drop_length (n : nat) (s : string) : len (drop n s) = len s - n.
Proof.
  revert s; induction n as [|n IH]; intros [|c s]; simpl; try reflexivity.
  apply IH.
Qed.

Lemma take_length (n : nat) (s : string) : n <= len s -> len (take n s) = n.
Proof.
  revert s; induction n as [|n IH]; intros [|c s]; simpl; try lia.
  intros H. f_equal. apply IH. lia.
Qed.

Lemma take_app (a r : string) : take (len a) (a +:+ r) = a.
Proof. induction a as [|c a IH]; simpl; [now destruct r | now rewrite IH]. Qed.

Lemma drop_app (a r : string) (n : nat) : drop (len a + n) (a +:+ r) = drop n r.
Proof. induction a as [|c a IH]; simpl; [reflexivity | apply IH]. Qed.

(** Where [find] answers, the string is cut into the text before the
    occurrence, the separator and the text behind it. *)
Lemma find_decompose (sep s : string) (i : nat) :
  find sep s = Some i ->
  s = take i s +:+ sep +:+ drop (i + len sep) s /\ len (take i s) = i.
Proof.
  intros H. pose proof (find_bound _ _ _ H) as Hb.
  pose proof (find_starts _ _ _ H) as Hs.
  apply startswith_decompose in Hs. rewrite drop_drop in Hs.
  split; [|apply take_length; lia].
  rewrite <- Hs. symmetry. apply take_drop.
Qed.

Lemma split_fuel_irrel (sep : string) (f1 f2 : nat) (s : string) :
  sep <> "" -> len s < f1 -> len s < f2 ->
  split_fuel f1 sep s = split_fuel f2 sep s.
Proof.
  intros Hsep. revert f2 s; induction f1 as [|f1 IH]; intros f2 s H1 H2; [lia|].
  destruct f2 as [|f2]; [lia|]. simpl.
  destruct (find sep s) as [i|] eqn:E; [|reflexivity].
  f_equal. apply find_bound in E.
  assert (0 < len sep) by (destruct sep; [congruence | simpl; lia]).
  apply IH; rewrite drop_length; lia.
Qed.

(** The defining equation of [split], free of fuel. *)
Lemma split_unfold (sep s : string) :
  sep <> "" ->
  split sep s =
  match find sep s with
  | None => [s]
  | Some i => take i s :: split sep (drop (i + len sep) s)
  end.
Proof.
  intros Hsep. unfold split at 1. simpl.
  destruct (find sep s) as [i|] eqn:E; [|reflexivity].
  f_equal. unfold split. apply find_bound in E.
  assert (0 < len sep) by (destruct sep; [congruence | simpl; lia]).
  apply split_fuel_irrel; auto; rewrite drop_length; lia.
Qed.

Lemma split_not_nil (sep s : string) : split sep s <> [].
Proof. unfold split. simpl. now destruct (find sep s). Qed.

Lemma split_none (sep s : string) : find sep s = None -> split sep s = [s].
Proof. intros H. unfold split. simpl. now rewrite H. Qed.

Lemma split_cut (sep a r : string) :
  sep <> "" -> find sep (a +:+ sep +:+ r) = Some (len a) ->
  split sep (a +:+ sep +:+ r) = a :: split sep r.
Proof.
  intros Hsep H. rewrite split_unfold, H by assumption.
  rewrite take_app. f_equal. f_equal.
  rewrite drop_app. replace (len sep) with (len sep + 0) by lia.
  now rewrite drop_app.
Qed.

(** A string cut once and no further splits in exactly two parts. *)
Lemma split_two (sep a r : string) :
  sep <> "" -> find sep (a +:+ sep +:+ r) = Some (len a) -> find sep r = None ->
  split sep (a +:+ sep +:+ r) = [a; r].
Proof.
  intros Hsep H Hr. rewrite split_cut by assumption. now rewrite split_none.
Qed.

(** ... and only such a string does. *)
Lemma split_two_inv (sep s a r : string) :
  sep <> "" -> split sep s = [a; r] ->
  s = a +:+ sep +:+ r /\ find sep s = Some (len a) /\ find sep r = None.
Proof.
  intros Hsep H. rewrite split_unfold in H by assumption.
  destruct (find sep s) as [i|] eqn:E; [|discriminate].
  injection H as Ha Hr.
  destruct (find_decompose _ _ _ E) as [Hs Hl]. rewrite Ha in Hs, Hl.
  rewrite split_unfold in Hr by assumption.
  destruct (find sep (drop (i + len sep) s)) as [j|] eqn:E2.
  - injection Hr as _ Hn. now apply split_not_nil in Hn.
  - injection Hr as Hr. rewrite Hr in Hs, E2. rewrite Hl. auto.
Qed.

Lemma split_length_ge2 (sep s : string) (i : nat) :
  sep <> "" -> find sep s = Some i -> 2 <= List.length (split sep s).
Proof.
  intros Hsep H. rewrite split_unfold, H by assumption. simpl.
  pose proof (split_not_nil sep (drop (i + len sep) s)).
  destruct (split sep (drop (i + len sep) s)); [congruence | simpl; lia].
Qed.

Lemma find_startswith (sep s : string) :
  startswith sep s = true -> find sep s = Some 0.
Proof. intros H. destruct s; [rewrite find_nil | rewrite find_cons]; now rewrite H. Qed.

Lemma contains_false (sep s : string) :
  contains sep s = false <-> find sep s = None.
Proof. unfold contains. destruct (find sep s); split; congruence. Qed.

Lemma find_cons_none (sep : string) (c : ascii) (s : string) :
  find sep (String c s) = None ->
  startswith sep (String c s) = false /\ find sep s = None.
Proof.
  rewrite find_cons. destruct (startswith sep (String c s)); [discriminate|].
  destruct (find sep s); [discriminate | auto].
Qed.

(** *** A single character as separator *)

Lemma count_char_app (c : ascii) (a b : string) :
  count_char c (a +:+ b) = count_char c a + count_char c b.
Proof. induction a as [|d a IH]; simpl; [reflexivity | rewrite IH; lia]. Qed.

Lemma find1_none_count (c : ascii) (s : string) :
  find (String c "") s = None -> count_char c s = 0.
Proof.
  induction s as [|d s IH]; [reflexivity|].
  intros H. apply find_cons_none in H as [H1 H2].
  simpl startswith in H1. simpl count_char.
  destruct (Ascii.eqb c d); [discriminate | auto].
Qed.

Lemma startswith_count (c : ascii) (p s : string) :
  startswith p s = true -> count_char c p <= count_char c s.
Proof.
  intros H. apply startswith_decompose in H. rewrite H, count_char_app. lia.
Qed.

Lemma find1_app (c : ascii) (a r : string) :
  find (String c "") a = None ->
  find (String c "") (a +:+ String c r) = Some (len a).
Proof.
  induction a as [|d a IH]; intros H.
  - rewrite str_app_nil, find_cons. simpl. now rewrite Ascii.eqb_refl.
  - apply find_cons_none in H as [H1 H2]. rewrite str_app_cons, find_cons.
    simpl startswith in *. destruct (Ascii.eqb c d); [discriminate|].
    now rewrite IH.
Qed.

Lemma find1_app_none (c : ascii) (a b : string) :
  find (String c "") a = None -> find (String c "") b = None ->
  find (String c "") (a +:+ b) = None.
Proof.
  induction a as [|d a IH]; intros Ha Hb; [exact Hb|].
  apply find_cons_none in Ha as [H1 H2]. rewrite str_app_cons, find_cons.
  simpl startswith in *. destruct (Ascii.eqb c d); [discriminate|].
  now rewrite IH.
Qed.

Lemma find1_head (c : ascii) (s r : string) :
  s <> "" -> find (String c "") s = None ->
  startswith (String c "") (s +:+ r) = false.
Proof.
  destruct s as [|d s]; [congruence|]. intros _ H.
  apply find_cons_none in H as [H1 _]. rewrite str_app_cons.
  simpl startswith in *. now destruct (Ascii.eqb c d).
Qed.

(** *** The separator of provider and item id *)

Lemma last_char_cons (c d : ascii) (s : string) :
  last_char (String c (String d s)) = last_char (String d s).
Proof. reflexivity. Qed.

Lemma find_hashes_after (p r : string) :
  find "###" p = None -> last_char p <> Some "#"%char ->
  find "###" (p +:+ "###" +:+ r) = Some (len p).
Proof.
  induction p as [|c p IH]; intros Hf Hl.
  - apply find_startswith. reflexivity.
  - apply find_cons_none in Hf as [Hs Hf].
    assert (Hl' : last_char p <> Some "#"%char).
    { destruct p as [|d p]; [discriminate | now rewrite last_char_cons in Hl]. }
    specialize (IH Hf Hl').
    change (String c p +:+ "###" +:+ r) with (String c (p +:+ "###" +:+ r)).
    rewrite find_cons, IH.
    replace (startswith "###" (String c (p +:+ "###" +:+ r))) with false; [reflexivity|].
    symmetry. rewrite startswith_cons.
    destruct (Ascii.eqb_spec "#"%char c) as [<-|]; [|reflexivity].
    destruct p as [|d p]; [now elim Hl|]. rewrite str_app_cons, startswith_cons.
    destruct (Ascii.eqb_spec "#"%char d) as [<-|]; [|reflexivity].
    destruct p as [|e p]; [now elim Hl|]. rewrite str_app_cons, startswith_cons.
    destruct (Ascii.eqb_spec "#"%char e) as [<-|]; [|reflexivity].
    simpl in Hs. discriminate Hs.
Qed.

End PyStrFacts.

(** [split] on overlapping and repeated separators, as Python cuts. *)
Example split_overlap : PyStr.split "###" "a####b" = ["a"; "#b"].
Proof. reflexivity. Qed.

Example split_twice : PyStr.split "###" "a######b" = ["a"; ""; "b"].
Proof. reflexivity. Qed.

Example split_empty : PyStr.split "/" "" = [""].
Proof. reflexivity. Qed.

Example split_only_sep : PyStr.split "/" "/" = [""; ""].
Proof. reflexivity. Qed.

(** ** media_source.py: the uri codec *)

Section MediaSourceFacts.

Import PyStr MediaSource.

Variable DOMAIN : string.

Let scheme : string := MASS_URI_SCHEME DOMAIN.

Lemma scheme_slashes : 3 <= count_char "/" scheme.
Proof.
  unfold scheme, MASS_URI_SCHEME, URI_SCHEME.
  rewrite !count_char_app. simpl. lia.
Qed.

Lemma scheme_not_empty : scheme <> "".
Proof. discriminate. Qed.

Lemma not_scheme_prefix (u : string) :
  count_char "/" u < 3 -> startswith scheme u = false.
Proof.
  intros H. destruct (startswith scheme u) eqn:E; [|reflexivity].
  apply (startswith_count "/") in E. pose proof scheme_slashes. lia.
Qed.

Lemma strip_uri_plain (u : string) :
  count_char "/" u < 3 -> startswith "/" u = false ->
  strip_uri DOMAIN u = Ok u.
Proof.
  intros H1 H2. unfold strip_uri. fold scheme.
  rewrite (not_scheme_prefix _ H1). rstep. now rewrite H2.
Qed.

(** Stripping the scheme and the leading delimiter never raises. *)
Lemma strip_uri_ok (uri : string) : exists u, strip_uri DOMAIN uri = Ok u.
Proof.
  unfold strip_uri. fold scheme.
  destruct (startswith scheme uri) eqn:E; [|simpl; eauto].
  apply find_startswith in E.
  pose proof (split_length_ge2 _ _ _ scheme_not_empty E) as Hl.
  destruct (split scheme uri) as [|x [|y l]]; simpl in Hl; try lia.
  simpl. eauto.
Qed.

Lemma truthy_nonempty (s : string) : truthy s = true <-> s <> "".
Proof. destruct s; simpl; split; congruence. Qed.

(** The unpacking [provider, item_id = content_id.split(sep)] succeeds
    exactly when the separator occurs once and not again behind that
    occurrence; it then cuts at this first occurrence. *)
Lemma unpack2_split (sep c : string) :
  sep <> "" ->
  unpack2 (split sep c) =
  match find sep c with
  | None => Raise ValueError
  | Some i =>
      match find sep (drop (i + len sep) c) with
      | None => Ok (take i c, drop (i + len sep) c)
      | Some _ => Raise ValueError
      end
  end.
Proof.
  intros Hsep. rewrite split_unfold by assumption.
  destruct (find sep c) as [i|]; [|reflexivity].
  rewrite split_unfold by assumption.
  destruct (find sep (drop (i + len sep) c)) as [j|]; [|reflexivity].
  simpl. pose proof (split_not_nil sep
    (drop (j + len sep) (drop (i + len sep) c))) as Hn.
  now destruct (split sep (drop (j + len sep) (drop (i + len sep) c))).
Qed.

(** [async_parse_uri] by the segments of the stripped uri. *)
Lemma parse_uri_segments (uri u : string) :
  strip_uri DOMAIN uri = Ok u ->
  async_parse_uri DOMAIN uri =
  match split "/" u with
  | m :: t :: l =>
      match l with
      | [] => Ok {| item_id := ""; provider := ""; media_type := t;
                    mass_id := m; content_id := "" |}
      | c :: _ =>
          if truthy c
          then try pi <- unpack2 (split ITEM_ID_SEPERATOR c);
               Ok {| item_id := snd pi; provider := fst pi; media_type := t;
                     mass_id := m; content_id := c |}
          else Ok {| item_id := ""; provider := ""; media_type := t;
                     mass_id := m; content_id := c |}
      end
  | _ => Raise IndexError
  end.
Proof.
  intros Hs. unfold async_parse_uri. rewrite Hs. rstep.
  pose proof (split_not_nil "/" u) as Hn.
  destruct (split "/" u) as [|m [|t [|c l]]]; try congruence; try reflexivity.
  simpl. destruct (truthy c); [|reflexivity].
  now destruct (unpack2 (split ITEM_ID_SEPERATOR c)).
Qed.

Lemma sep_not_empty : ITEM_ID_SEPERATOR <> "".
Proof. discriminate. Qed.

Lemma slash_not_empty : "/" <> "".
Proof. discriminate. Qed.

Lemma create_identifier (mass : MusicAssistant) (item : media_item) (b : BrowseMedia) :
  async_create_media_item_source DOMAIN mass item = Ok b ->
  identifier b = item_identifier (server_id mass) (mi_media_type item)
                   (mi_provider item) (mi_item_id item).
Proof.
  unfold async_create_media_item_source.
  destruct (dict_get CONTENT_TYPE_MEDIA_CLASS (mi_media_type item)); [|discriminate].
  rstep.
  destruct (String.eqb (mi_media_type item) "album");
    [destruct (key_get (mi_artist item)); [|discriminate]|];
    rstep;
    (destruct (String.eqb (mi_media_type item) "track");
     [destruct (key_get (mi_artists item)); [|discriminate]|]);
    rstep; now intros [= <-].
Qed.

(** Decoding an identifier whose provider part ends where the separator
    begins. *)
Lemma parse_item_identifier (srv cat prov iid : string) :
  srv <> "" ->
  find "/" srv = None -> find "/" cat = None ->
  find "/" prov = None -> find "/" iid = None ->
  find "###" prov = None -> find "###" iid = None ->
  last_char prov <> Some "#"%char ->
  async_parse_uri DOMAIN (item_identifier srv cat prov iid) =
  Ok {| item_id := iid; provider := prov; media_type := cat; mass_id := srv;
        content_id := prov +:+ ITEM_ID_SEPERATOR +:+ iid |}.
Proof.
  intros Hne Hs Hc Hp Hi Hp3 Hi3 Hl.
  set (c := prov +:+ ITEM_ID_SEPERATOR +:+ iid).
  assert (Hcs : find "/" c = None).
  { unfold c. repeat apply find1_app_none; auto. }
  assert (Hstrip : strip_uri DOMAIN (item_identifier srv cat prov iid)
                   = Ok (item_identifier srv cat prov iid)).
  { apply strip_uri_plain.
    - unfold item_identifier. fold c. rewrite !count_char_app.
      rewrite (find1_none_count _ _ Hs), (find1_none_count _ _ Hc),
        (find1_none_count _ _ Hcs). simpl. lia.
    - unfold item_identifier. now apply find1_head. }
  rewrite (parse_uri_segments _ _ Hstrip).
  unfold item_identifier. fold c.
  rewrite (split_cut "/" srv);
    [| exact slash_not_empty | now apply (find1_app "/"%char)].
  rewrite (split_two "/" cat c);
    [| exact slash_not_empty | now apply (find1_app "/"%char) | exact Hcs].
  assert (Ht : truthy c = true).
  { unfold c. destruct prov; reflexivity. }
  rewrite Ht. unfold c at 1.
  rewrite (split_two ITEM_ID_SEPERATOR prov iid)
    by (auto using sep_not_empty, find_hashes_after).
  reflexivity.
Qed.

(** The two outcomes of unpacking the third segment. *)
Lemma unpack2_cases (c : string) :
  (unpack2 (split ITEM_ID_SEPERATOR c) = Raise ValueError /\
   (find ITEM_ID_SEPERATOR c = None \/
    exists i j, find ITEM_ID_SEPERATOR c = Some i /\
      find ITEM_ID_SEPERATOR (drop (i + len ITEM_ID_SEPERATOR) c) = Some j)) \/
  (exists n, find ITEM_ID_SEPERATOR c = Some n /\
     find ITEM_ID_SEPERATOR (drop (n + len ITEM_ID_SEPERATOR) c) = None /\
     unpack2 (split ITEM_ID_SEPERATOR c) =
       Ok (take n c, drop (n + len ITEM_ID_SEPERATOR) c)).
Proof.
  rewrite (unpack2_split _ c sep_not_empty).
  destruct (find ITEM_ID_SEPERATOR c) as [n|] eqn:E; [|left; auto].
  destruct (find ITEM_ID_SEPERATOR (drop (n + len ITEM_ID_SEPERATOR) c))
    as [j|] eqn:E2.
  - left. split; [reflexivity|]. right. eauto.
  - right. exists n. auto.
Qed.

(** C1 (amended).  For a server id, category, provider and item id free
    of the delimiter '/' and of the separator '###', with provider and
    item id non-empty, and moreover with a non-empty server id and a
    provider that does not end in '#', decoding the identifier that
    [async_create_media_item_source] builds returns exactly these four
    fields. *)
Theorem parse_create_roundtrip (mass : MusicAssistant) (item : media_item)
    (b : BrowseMedia) :
  async_create_media_item_source DOMAIN mass item = Ok b ->
  mi_provider item <> "" -> mi_item_id item <> "" ->
  plain_field (server_id mass) = true ->
  plain_field (mi_media_type item) = true ->
  plain_field (mi_provider item) = true ->
  plain_field (mi_item_id item) = true ->
  server_id mass <> "" ->
  last_char (mi_provider item) <> Some "#"%char ->
  async_parse_uri DOMAIN (identifier b) =
  Ok {| item_id := mi_item_id item;
        provider := mi_provider item;
        media_type := mi_media_type item;
        mass_id := server_id mass;
        content_id := mi_provider item +:+ ITEM_ID_SEPERATOR +:+ mi_item_id item |}.
Proof.
  intros Hb _ _ Hs Hc Hp Hi Hne Hl.
  rewrite (create_identifier _ _ _ Hb).
  unfold plain_field in *.
  apply andb_prop in Hs as [Hs _], Hc as [Hc _], Hp as [Hp Hp3], Hi as [Hi Hi3].
  apply negb_true_iff, contains_false in Hs, Hc, Hp, Hp3, Hi, Hi3.
  now apply parse_item_identifier.
Qed.


(** C8.  Decoding '{server_id}/{category}', a uri without a third
    segment, yields an empty provider and an empty item id and preserves
    the server id as [mass_id] and the category as [media_type].  The
    server id and the category are segments: free of '/', and the server
    id is not empty. *)
Theorem parse_category_only (srv cat : string) :
  srv <> "" -> contains "/" srv = false -> contains "/" cat = false ->
  async_parse_uri DOMAIN (srv +:+ "/" +:+ cat) =
  Ok {| item_id := ""; provider := ""; media_type := cat; mass_id := srv;
        content_id := "" |}.
Proof.
  intros Hne Hs Hc. apply contains_false in Hs, Hc.
  assert (Hstrip : strip_uri DOMAIN (srv +:+ "/" +:+ cat) = Ok (srv +:+ "/" +:+ cat)).
  { apply strip_uri_plain.
    - rewrite !count_char_app.
      rewrite (find1_none_count _ _ Hs), (find1_none_count _ _ Hc). simpl. lia.
    - now apply find1_head. }
  rewrite (parse_uri_segments _ _ Hstrip).
  rewrite (split_two "/" srv cat);
    [reflexivity | exact slash_not_empty | now apply (find1_app "/"%char) | exact Hc].
Qed.

End MediaSourceFacts.

Section MediaSourceExamples.

Import PyStr MediaSource Samples.

Lemma parse_create_roundtrip_witness :
  async_parse_uri DOMAIN "srv1/album/spotify###42" =
  Ok {| item_id := "42"; provider := "spotify"; media_type := "album";
        mass_id := "srv1"; content_id := "spotify###42" |}.
Proof.
  refine (parse_create_roundtrip DOMAIN (server "srv1") (album "spotify" "42")
            {| title := "Abbey Road";
               media_class := "album";
               children_media_class := Some "track";
               media_content_id := "media-source://music_assistant/srv1/album/spotify###42";
               media_content_type := "audio";
               can_play := true;
               can_expand := true;
               thumbnail := None;
               identifier := "srv1/album/spotify###42";
               domain := "music_assistant" |}
            _ _ _ _ _ _ _ _ _);
    try reflexivity; discriminate.
Defined.

(** C1, as stated, fails.  A provider ending in '#' satisfies every
    condition of the claim, yet the separator is found one character
    early; and an empty server id makes the identifier begin with the
    delimiter, which decoding strips. *)
Lemma roundtrip_counterexample :
  (exists b,
     async_create_media_item_source DOMAIN (server "srv1") (album "spot#" "42") = Ok b /\
     forallb plain_field ["srv1"; "album"; "spot#"; "42"] = true /\
     async_parse_uri DOMAIN (identifier b) =
       Ok {| item_id := "#42"; provider := "spot"; media_type := "album";
             mass_id := "srv1"; content_id := "spot####42" |}) /\
  (exists b,
     async_create_media_item_source DOMAIN (server "") (album "spotify" "42") = Ok b /\
     forallb plain_field [""; "album"; "spotify"; "42"] = true /\
     async_parse_uri DOMAIN (identifier b) =
       Ok {| item_id := ""; provider := ""; media_type := "spotify###42";
             mass_id := "album"; content_id := "" |}).
Proof. split; eexists; repeat split. Qed.


Lemma parse_category_only_witness :
  async_parse_uri DOMAIN "srv1/album" =
  Ok {| item_id := ""; provider := ""; media_type := "album"; mass_id := "srv1";
        content_id := "" |}.
Proof.
  refine (parse_category_only DOMAIN "srv1" "album" _ _ _);
    [discriminate | reflexivity | reflexivity].
Defined.

(** The example of the specification: server [srv1], category [album],
    provider [spotify], item [42]. *)
Example parse_uri_example :
  async_parse_uri DOMAIN "media-source://music_assistant/srv1/album/spotify###42" =
  Ok {| item_id := "42"; provider := "spotify"; media_type := "album";
        mass_id := "srv1"; content_id := "spotify###42" |}.
Proof. reflexivity. Qed.

End MediaSourceExamples.

(** ** player_controls.py: discovery *)

Section DiscoveryFacts.

Import PyVal PlayerControls.

Lemma fold_append {A B : Type} (f : A -> B) (l : list A) (acc : list B) :
  fold_left (fun acc x => acc ++ [f x]) l acc = acc ++ map f l.
Proof.
  revert acc; induction l as [|x l IH]; intros acc; simpl.
  - now rewrite app_nil_r.
  - rewrite IH, <- app_assoc. reflexivity.
Qed.

(** The candidates one entity contributes. *)
Lemma scan_entity_app (acc : list control) (e : Hass.State) :
  scan_entity acc e =
  acc ++ (if is_mass_player e then []
          else map (power_control e) (default [""] (Hass.source_list e)) ++
               (if String.eqb (Hass.domain e) MEDIA_PLAYER_DOMAIN
                then [volume_control e] else [])).
Proof.
  unfold scan_entity. destruct (is_mass_player e); [now rewrite app_nil_r|].
  rewrite fold_append.
  destruct (String.eqb (Hass.domain e) MEDIA_PLAYER_DOMAIN).
  - now rewrite <- app_assoc.
  - now rewrite app_nil_r.
Qed.

Lemma fold_scan (l : list Hass.State) (acc : list control) :
  fold_left scan_entity l acc = acc ++ flat_map (scan_entity []) l.
Proof.
  revert acc; induction l as [|e l IH]; intros acc; simpl.
  - now rewrite app_nil_r.
  - rewrite IH, (scan_entity_app acc), (scan_entity_app []), <- app_assoc.
    reflexivity.
Qed.

Lemma discovery_app (h1 h2 : Hass.states) :
  async_get_playercontrol_entities (h1 ++ h2) =
  async_get_playercontrol_entities h1 ++ async_get_playercontrol_entities h2.
Proof.
  unfold async_get_playercontrol_entities, Hass.async_all.
  rewrite List.filter_app, !fold_scan, flat_map_app. reflexivity.
Qed.

(** C6 (amended).  Discovery handles the entities one by one.  An entity
    outside the three scanned domains, or one that carries a
    [mass_player_id], yields nothing.  Any other entity yields one power
    candidate per entry of its source list, sourced, with control id
    '{entity_id}_power_{source}', for a non-empty entry and source-less,
    with control id '{entity_id}_power', for an empty one; without a
    source list it yields exactly one source-less power candidate, and
    with one it yields no source-less candidate beside those of the
    list.  A media player additionally yields one volume candidate with
    control id '{entity_id}_volume'. *)
Theorem discovery_candidates :
  (forall h1 h2 : Hass.states,
     async_get_playercontrol_entities (h1 ++ h2) =
     async_get_playercontrol_entities h1 ++ async_get_playercontrol_entities h2) /\
  (forall e : Hass.State,
     async_get_playercontrol_entities [e] =
     if Hass.str_in (Hass.domain e)
          [SWITCH_DOMAIN; MEDIA_PLAYER_DOMAIN; INPUT_BOOLEAN_DOMAIN]
        && negb (is_mass_player e)
     then map (power_control e) (default [""] (Hass.source_list e)) ++
          (if String.eqb (Hass.domain e) MEDIA_PLAYER_DOMAIN
           then [volume_control e] else [])
     else []) /\
  (forall (e : Hass.State) (a : ascii) (s : string),
     power_control e (String a s) =
     {| control_type := CONTROL_TYPE_POWER;
        control_id := Hass.entity_id e +:+ "_power_" +:+ String a s;
        provider_name := "Home Assistant";
        name := Hass.name e +:+ " (" +:+ Hass.entity_id e +:+ "): " +:+ String a s;
        entity_id := Hass.entity_id e;
        source := Some (String a s) |}) /\
  (forall e : Hass.State,
     power_control e "" =
     {| control_type := CONTROL_TYPE_POWER;
        control_id := Hass.entity_id e +:+ "_power";
        provider_name := "Home Assistant";
        name := Hass.name e +:+ " (" +:+ Hass.entity_id e +:+ ")";
        entity_id := Hass.entity_id e;
        source := Some "" |}) /\
  (forall e : Hass.State,
     control_type (volume_control e) = CONTROL_TYPE_VOLUME /\
     control_id (volume_control e) = Hass.entity_id e +:+ "_volume").
Proof.
  split; [exact discovery_app|]. split; [|repeat split].
  intros e. unfold async_get_playercontrol_entities, Hass.async_all.
  cbn [List.filter].
  destruct (Hass.str_in (Hass.domain e) _); [|reflexivity].
  cbn [fold_left andb]. rewrite scan_entity_app.
  now destruct (is_mass_player e).
Qed.

(** C6, as stated, fails: a media player with the source list
    [["TV"; "CD"]] yields three candidates, none of them the source-less
    power control; and a media player that carries a [mass_player_id]
    yields none at all. *)
Lemma discovery_counterexample :
  map control_id (async_get_playercontrol_entities [Samples.receiver]) =
    ["media_player.receiver_power_TV"; "media_player.receiver_power_CD";
     "media_player.receiver_volume"] /\
  ~ In "media_player.receiver_power"
      (map control_id (async_get_playercontrol_entities [Samples.receiver])) /\
  async_get_playercontrol_entities [Samples.mass_kitchen] = [].
Proof.
  split; [reflexivity|]. split; [|reflexivity].
  vm_compute. intros [H|[H|[H|[]]]]; discriminate H.
Qed.

End DiscoveryFacts.

(** ** player_controls.py: registration *)

Section RegistrationFacts.

Import PyVal PlayerControls.

Implicit Types (t : gmap string (list control)) (c : control) (k : string).

Lemma str_in_elem_of (x : string) (l : list string) :
  Hass.str_in x l = true <-> x ∈ l.
Proof.
  unfold Hass.str_in. rewrite existsb_exists, list_elem_of_In. split.
  - intros (y & Hy & E). apply String.eqb_eq in E. now subst.
  - intros H. exists x. split; [exact H | apply String.eqb_refl].
Qed.

Lemma store_idem t k c : has t k c -> store_control t k c = t.
Proof.
  intros (l & Hl & Hc). unfold store_control. cbv zeta. rewrite !Hl. simpl.
  now rewrite decide_True.
Qed.

Lemma store_has t k c : has (store_control t k c) k c.
Proof.
  unfold store_control, has. cbv zeta. destruct (t !! k) as [l|] eqn:E.
  - rewrite E. simpl. destruct (decide (c ∈ l)).
    + eauto.
    + exists (l ++ [c]). rewrite lookup_insert_eq. split; [done | set_solver].
  - rewrite lookup_insert_eq. simpl. try rewrite decide_False by set_solver.
    exists [c]. rewrite lookup_insert_eq. split; [done | set_solver].
Qed.

Lemma store_mono t k c k' c' : has t k' c' -> has (store_control t k c) k' c'.
Proof.
  intros (l' & Hl' & Hc'). unfold store_control, has. cbv zeta.
  destruct (decide (k = k')) as [->|Hne].
  - rewrite !Hl'. simpl. destruct (decide (c ∈ l')).
    + eauto.
    + exists (l' ++ [c]). rewrite lookup_insert_eq. split; [done | set_solver].
  - destruct (t !! k) as [l|] eqn:E.
    + rewrite E. simpl. destruct (decide (c ∈ l)).
      * eauto.
      * exists l'. now rewrite lookup_insert_ne.
    + rewrite lookup_insert_eq. simpl. try rewrite decide_False by set_solver.
      exists l'. now rewrite !lookup_insert_ne.
Qed.

Section OneRound.

Variable hass : Hass.states.
Variable enabled : list string.

Let step := register_one hass enabled.

Lemma register_one_mono acc c0 k c :
  has (fst acc) k c -> has (fst (step acc c0)) k c.
Proof.
  intros H. unfold step, register_one.
  destruct (negb (Hass.str_in (control_id c0) enabled)); [exact H|].
  destruct (Hass.states_get hass (entity_id c0)); [|exact H].
  now apply store_mono.
Qed.

Lemma register_fold_mono (l : list control) acc k c :
  has (fst acc) k c -> has (fst (fold_left step l acc)) k c.
Proof.
  revert acc; induction l as [|c0 l IH]; intros acc H; simpl; [exact H|].
  apply IH. now apply register_one_mono.
Qed.

(** Every enabled candidate whose entity exists is in the table after
    the round. *)
Lemma register_fold_has (l : list control) acc c e :
  In c l -> Hass.str_in (control_id c) enabled = true ->
  Hass.states_get hass (entity_id c) = Some e ->
  has (fst (fold_left step l acc)) (Hass.entity_id e) c.
Proof.
  intros Hin Hen He. revert acc; induction l as [|c0 l IH]; intros acc;
    [destruct Hin|].
  simpl. destruct Hin as [->|Hin]; [|now apply IH].
  apply register_fold_mono. unfold step, register_one.
  rewrite Hen, He. simpl. apply store_has.
Qed.

(** A round over candidates that the table already lists leaves the
    table as it is. *)
Lemma register_fold_stable (l : list control) t calls :
  (forall c e, In c l -> Hass.str_in (control_id c) enabled = true ->
     Hass.states_get hass (entity_id c) = Some e ->
     has t (Hass.entity_id e) c) ->
  fst (fold_left step l (t, calls)) = t.
Proof.
  revert calls; induction l as [|c0 l IH]; intros calls H; simpl; [reflexivity|].
  assert (E : fst (step (t, calls) c0) = t).
  { unfold step, register_one.
    destruct (Hass.str_in (control_id c0) enabled) eqn:Hen; [|reflexivity].
    simpl. destruct (Hass.states_get hass (entity_id c0)) as [e|] eqn:He;
      [|reflexivity].
    simpl. apply store_idem. apply H; auto. now left. }
  destruct (step (t, calls) c0) as [t' calls']. simpl in E. subst t'.
  apply IH. intros c e Hin. apply H. now right.
Qed.

End OneRound.

(** The registrations of a round with a smaller enabled-set are those
    of the larger round that concern a control still enabled. *)
Lemma register_fold_calls (hass : Hass.states) (e1 e2 : list string)
    (l : list control) t1 t2 (calls1 calls2 : list register_call) :
  e2 ⊆ e1 ->
  calls2 = List.filter (fun call => Hass.str_in (reg_control_id call) e2) calls1 ->
  snd (fold_left (register_one hass e2) l (t2, calls2)) =
  List.filter (fun call => Hass.str_in (reg_control_id call) e2)
    (snd (fold_left (register_one hass e1) l (t1, calls1))).
Proof.
  intros Hsub. revert t1 t2 calls1 calls2.
  induction l as [|c l IH]; intros t1 t2 calls1 calls2 Hc; simpl; [exact Hc|].
  unfold register_one at 2 4.
  destruct (Hass.str_in (control_id c) e2) eqn:H2.
  - assert (H1 : Hass.str_in (control_id c) e1 = true).
    { apply str_in_elem_of. apply Hsub. now apply str_in_elem_of. }
    rewrite H1. simpl.
    destruct (Hass.states_get hass (entity_id c)) as [e|]; [|now apply IH].
    simpl. apply IH. rewrite List.filter_app. simpl. rewrite H2. now rewrite Hc.
  - simpl. destruct (Hass.str_in (control_id c) e1); simpl; [|now apply IH].
    destruct (Hass.states_get hass (entity_id c)) as [e|]; [|now apply IH].
    simpl. apply IH. rewrite List.filter_app. simpl. rewrite H2.
    now rewrite app_nil_r.
Qed.

(** C2 (amended).  After registering with an enabled-set, registering
    again on the same bridge with a subset of it awaits one registration
    per control that is still enabled, the same as in the first round,
    and changes nothing in the bridge's table of registered controls:
    the controls dropped from the enabled-set stay registered, so the
    table still holds the controls of the first round. *)
Theorem reregister_subset (hass : Hass.states) (self : HassPlayerControls)
    (opts : config_options_t) :
  enabled_controls opts ⊆ enabled_controls (config_options self) ->
  _registered_controls
    (fst (async_register_player_controls
            (with_options (fst (async_register_player_controls self hass)) opts)
            hass)) =
  _registered_controls (fst (async_register_player_controls self hass)) /\
  snd (async_register_player_controls
         (with_options (fst (async_register_player_controls self hass)) opts)
         hass) =
  List.filter
    (fun call => Hass.str_in (reg_control_id call) (enabled_controls opts))
    (snd (async_register_player_controls self hass)).
Proof.
  intros Hsub. unfold async_register_player_controls, with_options.
  cbn [fst snd config_options _registered_controls]. split.
  - apply register_fold_stable. intros c e Hin Hen He.
    apply register_fold_has; auto.
    apply str_in_elem_of, Hsub, str_in_elem_of, Hen.
  - now apply register_fold_calls.
Qed.

End RegistrationFacts.

Section RegistrationExamples.

Import PyVal PlayerControls Samples.

Lemma reregister_subset_witness :
  _registered_controls
    (fst (async_register_player_controls (with_options bridge_all volume_only)
            [receiver])) =
  _registered_controls bridge_all.
Proof.
  refine (proj1 (reregister_subset [receiver]
    (init (options ["media_player.receiver_power_TV";
                    "media_player.receiver_power_CD"]
                   ["media_player.receiver_volume"]))
    volume_only _)).
  intros x Hx.
  change (x ∈ ["media_player.receiver_volume"]) in Hx.
  apply list_elem_of_singleton in Hx. subst x.
  change ("media_player.receiver_volume" ∈
            ["media_player.receiver_power_TV"; "media_player.receiver_power_CD";
             "media_player.receiver_volume"]).
  repeat constructor.
Defined.

(** C2, as stated, fails: three controls are registered, the
    enabled-set shrinks to one of them, the second round awaits one
    registration, and the table still holds the three controls. *)
Lemma reregister_counterexample :
  List.length (registered_list bridge_all) = 3 /\
  List.length (enabled_controls volume_only) = 1 /\
  List.length
    (snd (async_register_player_controls (with_options bridge_all volume_only)
            [receiver])) = 1 /\
  registered_list
    (fst (async_register_player_controls (with_options bridge_all volume_only)
            [receiver])) =
  [receiver_tv; receiver_cd; receiver_volume].
Proof. repeat split; vm_compute; reflexivity. Qed.

End RegistrationExamples.

(** ** player_controls.py: the state of a control, both ways *)

Section StateFacts.

Import PyVal PlayerControls.

Lemma sourced_power_sourced (c : control) (a : ascii) (s : string) :
  control_type c = CONTROL_TYPE_POWER -> source c = Some (String a s) ->
  sourced_power c = Ok (Some (String a s)).
Proof. intros Ht Hs. unfold sourced_power. now rewrite Ht, Hs. Qed.

Lemma sourced_power_plain (c : control) :
  control_type c = CONTROL_TYPE_POWER -> source c = Some "" ->
  sourced_power c = Ok None.
Proof. intros Ht Hs. unfold sourced_power. now rewrite Ht, Hs. Qed.

Lemma sourced_power_volume (c : control) :
  control_type c = CONTROL_TYPE_VOLUME -> sourced_power c = Ok None.
Proof. intros Ht. unfold sourced_power. now rewrite Ht. Qed.

(** On a state change, a sourced power control is pushed as "the
    entity's current source is the control's source". *)
Lemma pushed_state_sourced (state_obj : Hass.State) (c : control)
    (a : ascii) (s : string) :
  control_type c = CONTROL_TYPE_POWER -> source c = Some (String a s) ->
  pushed_state state_obj c =
  Ok (VBool (bool_decide (Hass.source state_obj = Some (String a s)))).
Proof.
  intros Ht Hs. unfold pushed_state.
  rewrite (sourced_power_sourced _ _ _ Ht Hs). rstep.
  do 2 f_equal. destruct (Hass.source state_obj) as [cur|]; simpl default.
  - destruct (String.eqb_spec cur (String a s)) as [->|Hne].
    + now rewrite bool_decide_eq_true_2.
    + rewrite bool_decide_eq_false_2; [reflexivity | congruence].
  - now rewrite bool_decide_eq_false_2.
Qed.

(** At registration every power control, sourced or not, is reported as
    "the entity is not off". *)
Lemma register_one_power_state (hass : Hass.states) (enabled : list string)
    (acc : gmap string (list control) * list register_call) (c : control)
    (e : Hass.State) :
  control_type c = CONTROL_TYPE_POWER ->
  Hass.str_in (control_id c) enabled = true ->
  Hass.states_get hass (entity_id c) = Some e ->
  exists call,
    snd (register_one hass enabled acc c) = snd acc ++ [call] /\
    reg_control_id call = control_id c /\
    reg_state call = VBool (not_off e).
Proof.
  intros Ht Hen He. unfold register_one. rewrite Hen, He, Ht. simpl.
  eexists. repeat split.
Qed.

Lemma div100_levels :
  map (fun n => div100 (VInt (Z.of_nat n))) (seq 0 101) =
  map Ok ControlProps.normalized_levels.
Proof. vm_compute. reflexivity. Qed.

(** For a requested volume of 0 to 100 the code's [new_state / 100] is
    the level that the specification's table gives. *)
Lemma div100_level (n : nat) (level : float) :
  nth_error ControlProps.normalized_levels n = Some level ->
  div100 (VInt (Z.of_nat n)) = Ok level.
Proof.
  intros Hn.
  assert (Hm : nth_error (map Ok ControlProps.normalized_levels) n =
               Some (Ok level : result float)).
  { now rewrite nth_error_map, Hn. }
  rewrite <- div100_levels, nth_error_map in Hm.
  destruct (nth_error (seq 0 101) n) as [k|] eqn:Hk; [|discriminate].
  assert (k = n).
  { assert (Hlt : n < List.length (seq 0 101)).
    { apply nth_error_Some. congruence. }
    rewrite length_seq in Hlt.
    apply (nth_error_nth _ _ 0) in Hk. rewrite seq_nth in Hk; lia. }
  subst k. cbn [option_map] in Hm. now injection Hm.
Qed.

(** C4 (amended).  A request for a control whose entity is missing
    awaits no service call and raises nothing.  For an entity that
    exists at most one call is awaited, and each call goes to the
    entity's domain and names the control's entity.  For a sourced power
    control, a power-on request while the entity's state is "off" awaits
    [select_source] with the control's source; a power-off request
    awaits [turn_off], without a source or a level, if the entity's
    current source is the control's source, and nothing otherwise.  For
    a plain power control the request awaits [turn_on] or [turn_off] by
    its truth value.  For a volume control a request of [n], from 0 to
    100, awaits [volume_set] with the level that
    [ControlProps.normalized_levels] gives for [n]. *)
Theorem set_state_dispatch (hass : Hass.states) (c : control) (v : pyval) :
  (Hass.states_get hass (entity_id c) = None ->
   async_set_player_control_state hass c v = Ok []) /\
  (forall e : Hass.State,
     Hass.states_get hass (entity_id c) = Some e ->
     (forall (a : ascii) (s : string),
        control_type c = CONTROL_TYPE_POWER -> source c = Some (String a s) ->
        (truthy v = true -> Hass.state e = "off" ->
         async_set_player_control_state hass c v =
         Ok [{| Hass.call_domain := Hass.domain e;
                Hass.call_service := "select_source";
                Hass.call_data :=
                  {| Hass.sd_entity_id := entity_id c;
                     Hass.sd_source := Some (String a s);
                     Hass.sd_volume_level := None |} |}]) /\
        (truthy v = false -> Hass.source e = Some (String a s) ->
         async_set_player_control_state hass c v =
         Ok [{| Hass.call_domain := Hass.domain e;
                Hass.call_service := "turn_off";
                Hass.call_data :=
                  {| Hass.sd_entity_id := entity_id c;
                     Hass.sd_source := None;
                     Hass.sd_volume_level := None |} |}]) /\
        (truthy v = false -> Hass.source e <> Some (String a s) ->
         async_set_player_control_state hass c v = Ok [])) /\
     (control_type c = CONTROL_TYPE_POWER -> source c = Some "" ->
      async_set_player_control_state hass c v =
      Ok [{| Hass.call_domain := Hass.domain e;
             Hass.call_service := if truthy v then "turn_on" else "turn_off";
             Hass.call_data :=
               {| Hass.sd_entity_id := entity_id c;
                  Hass.sd_source := None;
                  Hass.sd_volume_level := None |} |}]) /\
     (forall (n : nat) (level : float),
        control_type c = CONTROL_TYPE_VOLUME -> v = VInt (Z.of_nat n) ->
        nth_error ControlProps.normalized_levels n = Some level ->
        async_set_player_control_state hass c v =
        Ok [{| Hass.call_domain := Hass.domain e;
               Hass.call_service := "volume_set";
               Hass.call_data :=
                 {| Hass.sd_entity_id := entity_id c;
                    Hass.sd_source := None;
                    Hass.sd_volume_level := Some level |} |}]) /\
     (forall calls : list Hass.service_call,
        async_set_player_control_state hass c v = Ok calls ->
        List.length calls <= 1)).
Proof.
  unfold async_set_player_control_state. cbv zeta. split.
  - now intros ->.
  - intros e ->. split; [intros a s Ht Hs; split; [|split] | split; [|split]].
    + intros Hv Hoff. rewrite (sourced_power_sourced _ _ _ Ht Hs). rstep.
      now rewrite Hv, Hoff.
    + intros Hv Hsrc. rewrite (sourced_power_sourced _ _ _ Ht Hs). rstep.
      rewrite Hv. simpl andb. cbv iota.
      destruct (decide _) as [_|Hne]; [reflexivity | contradiction].
    + intros Hv Hsrc. rewrite (sourced_power_sourced _ _ _ Ht Hs). rstep.
      rewrite Hv. simpl andb. cbv iota.
      destruct (decide _) as [Heq|_]; [contradiction | reflexivity].
    + intros Ht Hs. rewrite (sourced_power_plain _ Ht Hs). rstep. rewrite Ht.
      now destruct (truthy v).
    + intros n level Ht -> Hn. rewrite (sourced_power_volume _ Ht). rstep.
      rewrite Ht, (div100_level _ _ Hn). reflexivity.
    + intros calls. destruct (sourced_power c) as [[src|]|]; rstep.
      * destruct (truthy v && String.eqb (Hass.state e) "off");
          [| destruct (decide _)]; intros [= <-]; simpl; lia.
      * destruct (control_type c); [intros [= <-]; simpl; lia|].
        destruct (div100 v); rstep; [|discriminate].
        intros [= <-]. simpl. lia.
      * discriminate.
Qed.

(** C9.  A request of 55 for a volume control whose entity exists awaits
    exactly one service call: [volume_set] in the entity's domain, for
    the control's entity, without a source and with the level 0.55. *)
Theorem volume_request_55 (hass : Hass.states) (c : control) (e : Hass.State) :
  control_type c = CONTROL_TYPE_VOLUME ->
  Hass.states_get hass (entity_id c) = Some e ->
  async_set_player_control_state hass c (VInt 55) =
  Ok [{| Hass.call_domain := Hass.domain e;
         Hass.call_service := "volume_set";
         Hass.call_data :=
           {| Hass.sd_entity_id := entity_id c;
              Hass.sd_source := None;
              Hass.sd_volume_level := Some 0.55%float |} |}].
Proof.
  intros Ht He. unfold async_set_player_control_state. cbv zeta.
  rewrite He, (sourced_power_volume _ Ht). rstep. rewrite Ht.
  change (div100 (VInt 55)) with (div100 (VInt (Z.of_nat 55))).
  rewrite (div100_level 55 0.55%float eq_refl). reflexivity.
Qed.

End StateFacts.

Section StateExamples.

Import PyVal PlayerControls Samples.

(** The dispatch at the receiver: a request without its entity; the
    "TV" control switched on while the receiver is off; the "CD" control
    switched off while the receiver plays from "CD", and the "TV"
    control switched off meanwhile; a volume request of 30. *)
Lemma set_state_dispatch_witness :
  async_set_player_control_state [] receiver_tv (VBool true) = Ok [] /\
  async_set_player_control_state [receiver_off] receiver_tv (VBool true) =
  Ok [{| Hass.call_domain := "media_player";
         Hass.call_service := "select_source";
         Hass.call_data :=
           {| Hass.sd_entity_id := "media_player.receiver";
              Hass.sd_source := Some "TV";
              Hass.sd_volume_level := None |} |}] /\
  async_set_player_control_state [receiver] receiver_cd (VBool false) =
  Ok [{| Hass.call_domain := "media_player";
         Hass.call_service := "turn_off";
         Hass.call_data :=
           {| Hass.sd_entity_id := "media_player.receiver";
              Hass.sd_source := None;
              Hass.sd_volume_level := None |} |}] /\
  async_set_player_control_state [receiver] receiver_tv (VBool false) = Ok [] /\
  async_set_player_control_state [receiver] receiver_volume (VInt 30) =
  Ok [{| Hass.call_domain := "media_player";
         Hass.call_service := "volume_set";
         Hass.call_data :=
           {| Hass.sd_entity_id := "media_player.receiver";
              Hass.sd_source := None;
              Hass.sd_volume_level := Some 0.3%float |} |}].
Proof.
  refine (conj _ (conj _ (conj _ (conj _ _)))).
  - exact (proj1 (set_state_dispatch [] receiver_tv (VBool true)) eq_refl).
  - exact (proj1 (proj1 (proj2 (set_state_dispatch [receiver_off] receiver_tv
                                   (VBool true))
                           receiver_off eq_refl)
                    "T"%char "V" eq_refl eq_refl) eq_refl eq_refl).
  - exact (proj1 (proj2 (proj1 (proj2 (set_state_dispatch [receiver] receiver_cd
                                          (VBool false))
                                  receiver eq_refl)
                           "C"%char "D" eq_refl eq_refl)) eq_refl eq_refl).
  - refine (proj2 (proj2 (proj1 (proj2 (set_state_dispatch [receiver] receiver_tv
                                           (VBool false))
                                   receiver eq_refl)
                            "T"%char "V" eq_refl eq_refl)) eq_refl _).
    discriminate.
  - exact (proj1 (proj2 (proj2 (proj2 (set_state_dispatch [receiver] receiver_volume
                                          (VInt 30))
                                  receiver eq_refl)))
             30 0.3%float eq_refl eq_refl eq_refl).
Defined.

(** C4, as stated, fails: the receiver plays from "CD"; a power-on
    request for its "TV" control, a power control with a source, awaits
    no service call at all.  The same request does select the source
    "TV" once the receiver is off. *)
Lemma set_state_counterexample :
  Hass.states_get [receiver] (entity_id receiver_tv) = Some receiver /\
  control_type receiver_tv = CONTROL_TYPE_POWER /\
  source receiver_tv = Some "TV" /\
  truthy (VBool true) = true /\
  async_set_player_control_state [receiver] receiver_tv (VBool true) = Ok [] /\
  async_set_player_control_state [receiver_off] receiver_tv (VBool true) =
  Ok [{| Hass.call_domain := "media_player";
         Hass.call_service := "select_source";
         Hass.call_data :=
           {| Hass.sd_entity_id := "media_player.receiver";
              Hass.sd_source := Some "TV";
              Hass.sd_volume_level := None |} |}].
Proof. repeat split. Qed.

(** A power-on request for the control of the source that is playing
    falls through to the branch that turns the entity off. *)
Remark power_on_turns_off :
  async_set_player_control_state [receiver] receiver_cd (VBool true) =
  Ok [{| Hass.call_domain := "media_player";
         Hass.call_service := "turn_off";
         Hass.call_data :=
           {| Hass.sd_entity_id := "media_player.receiver";
              Hass.sd_source := None;
              Hass.sd_volume_level := None |} |}].
Proof. reflexivity. Qed.

Lemma volume_request_55_witness :
  async_set_player_control_state [receiver] receiver_volume (VInt 55) =
  Ok [{| Hass.call_domain := "media_player";
         Hass.call_service := "volume_set";
         Hass.call_data :=
           {| Hass.sd_entity_id := "media_player.receiver";
              Hass.sd_source := None;
              Hass.sd_volume_level := Some 0.55%float |} |}].
Proof.
  exact (volume_request_55 [receiver] receiver_volume receiver eq_refl eq_refl).
Defined.

(** C3 at a concrete input.  The receiver is on and plays from "CD".
    Registration reports its "TV" power control as [True]; the first
    state change of the same entity state pushes [False] for it. *)
Theorem sourced_power_initial_state :
  Hass.source receiver = Some "CD" /\
  map (fun call => (reg_control_id call, reg_state call))
    (snd (async_register_player_controls
            (init (options ["media_player.receiver_power_TV"] [])) [receiver])) =
  [("media_player.receiver_power_TV", VBool true)] /\
  async_hass_state_event
    (fst (async_register_player_controls
            (init (options ["media_player.receiver_power_TV"] [])) [receiver]))
    {| ev_entity_id := "media_player.receiver"; ev_new_state := Some receiver |} =
  Ok [{| upd_control_id := "media_player.receiver_power_TV";
         upd_state := VBool false |}].
Proof. repeat split; vm_compute; reflexivity. Qed.

End StateExamples.

(** ** media_source.py: browse nodes *)

Section BrowseFacts.

Import PyStr MediaSource.

Variable DOMAIN : string.

Lemma create_inv (mass : MusicAssistant) (item : media_item) (b : BrowseMedia) :
  async_create_media_item_source DOMAIN mass item = Ok b ->
  can_play b = Hass.str_in (mi_media_type item) PLAYABLE_MEDIA_TYPES /\
  (if String.eqb (mi_media_type item) "track"
   then exists names, mi_artists item = Some names /\
          title b = join " / " names +:+ " - " +:+ mi_name item
   else title b = mi_name item).
Proof.
  unfold async_create_media_item_source. cbv zeta.
  destruct (dict_get CONTENT_TYPE_MEDIA_CLASS (mi_media_type item));
    rstep; [|discriminate].
  destruct (String.eqb (mi_media_type item) "album");
    [destruct (mi_artist item); simpl key_get; rstep; [|discriminate]|]; rstep;
    (destruct (String.eqb (mi_media_type item) "track");
     [destruct (mi_artists item) as [names|]; simpl key_get; rstep; [|discriminate]|]);
    intros [= <-]; simpl; eauto.
Qed.

(** The title of an album node is the album's name alone: the second
    [if] assigns the title again. *)
Lemma album_title (mass : MusicAssistant) (item : media_item) (b : BrowseMedia) :
  async_create_media_item_source DOMAIN mass item = Ok b ->
  mi_media_type item = "album" -> title b = mi_name item.
Proof.
  intros H Ht. apply create_inv in H as [_ H]. now rewrite Ht in H.
Qed.

(** A node is returned for the ten keys of [CONTENT_TYPE_MEDIA_CLASS]
    only; it can be played for the five playable categories. *)
Lemma playable_categories (mass : MusicAssistant) (item : media_item) (b : BrowseMedia) :
  async_create_media_item_source DOMAIN mass item = Ok b ->
  (can_play b = true <->
   In (mi_media_type item) ["playlist"; "album"; "artist"; "radio"; "track"]).
Proof.
  intros H. apply create_inv in H as [-> _].
  unfold Hass.str_in. rewrite existsb_exists. split.
  - intros (x & Hx & E). apply String.eqb_eq in E. now subst.
  - intros Hin. exists (mi_media_type item). split; [exact Hin | apply String.eqb_refl].
Qed.

End BrowseFacts.

Section BrowseExamples.

Import PyStr MediaSource Samples.

(** C7 at a concrete input.  The node of the album "Abbey Road" by
    "The Beatles" carries the title "Abbey Road", without the artist;
    the node of a track carries its artists, joined, before its name. *)
Theorem album_node_title :
  (exists b,
     async_create_media_item_source DOMAIN (server "srv1") (album "spotify" "42") = Ok b /\
     title b = "Abbey Road" /\ can_play b = true) /\
  (exists b,
     async_create_media_item_source DOMAIN (server "srv1") track = Ok b /\
     title b = "Queen / David Bowie - Under Pressure" /\ can_play b = true).
Proof. split; eexists; repeat split. Qed.

End BrowseExamples.

(** ** media_player.py: the life of a player entity *)

Section PlayerFacts.

Import PyVal MediaPlayer.

Lemma mark_unavailable_data (p : MassPlayer) :
  _player_data (fst (async_mark_unavailable p)) =
  <["available" := VBool false]> (_player_data p) /\
  _queue_data (fst (async_mark_unavailable p)) = _queue_data p /\
  _queue_cur_item (fst (async_mark_unavailable p)) = _queue_cur_item p /\
  _cur_image (fst (async_mark_unavailable p)) = _cur_image p.
Proof. repeat split. Qed.

(** Every entity of the table carries a player id; the update handler
    keeps it so. *)
Lemma update_keeps_ids (media_players media_players' : media_players_t)
    (player_data : snapshot) (effects : list effect) :
  Forall (fun kp => exists s, player_id (snd kp) = Ok s) media_players ->
  async_update_media_player media_players player_data =
    Ok (media_players', effects) ->
  Forall (fun kp => exists s, player_id (snd kp) = Ok s) media_players'.
Proof.
  intros Hwf. unfold async_update_media_player.
  destruct (snapshot_player_id player_data) as [pid|] eqn:Hid; rstep;
    [|discriminate].
  destruct (has_player media_players pid); simpl negb; cbv iota;
    [now intros [= <- _]|].
  destruct (player_data !! "available") as [av|]; simpl key_get; rstep;
    [|discriminate].
  destruct (truthy av); simpl negb; cbv iota; intros [= <- _]; [|exact Hwf].
  apply Forall_app. split; [exact Hwf|]. constructor; [|constructor].
  exists pid. exact Hid.
Qed.


End PlayerFacts.

Section PlayerExamples.

Import PyVal MediaPlayer Samples.


(** A removed player stays in the table, marked unavailable. *)
Example kitchen_removed :
  async_remove_media_player [("kitchen", init kitchen)] "kitchen" =
  Ok ([("kitchen", init kitchen_off)], [WriteHaState (init kitchen_off)]).
Proof. vm_compute. reflexivity. Qed.

End PlayerExamples.

(** * Further properties of the code *)

(** ** player_controls.py: discovery and registration *)

Section ControlInvariants.

Import PyVal PlayerControls ControlProps.

Lemma states_get_id (hass : Hass.states) (eid : string) (e : Hass.State) :
  Hass.states_get hass eid = Some e -> Hass.entity_id e = eid.
Proof.
  unfold Hass.states_get. intros H. apply find_some in H as [_ H].
  now apply String.eqb_eq in H.
Qed.

Lemma states_get_some (hass : Hass.states) (e : Hass.State) :
  In e hass -> exists e', Hass.states_get hass (Hass.entity_id e) = Some e'.
Proof.
  unfold Hass.states_get. intros Hin.
  destruct (List.find _ hass) as [e'|] eqn:F; [eauto|].
  pose proof (find_none _ _ F e Hin) as H. simpl in H.
  now rewrite String.eqb_refl in H.
Qed.

Lemma power_control_entity (e : Hass.State) (src : string) :
  entity_id (power_control e src) = Hass.entity_id e /\
  control_type (power_control e src) = CONTROL_TYPE_POWER /\
  source (power_control e src) = Some src.
Proof. unfold power_control. now destruct (PyStr.truthy src). Qed.

(** The candidates of discovery, one by one. *)
Lemma discovery_in (hass : Hass.states) (c : control) :
  In c (async_get_playercontrol_entities hass) ->
  exists e, In e hass /\
    (c = volume_control e \/ exists src, c = power_control e src).
Proof.
  unfold async_get_playercontrol_entities, Hass.async_all.
  rewrite fold_scan. simpl. rewrite in_flat_map.
  intros (e & He & Hc). apply List.filter_In in He as [He _].
  exists e. split; [exact He|].
  rewrite scan_entity_app in Hc. simpl in Hc.
  destruct (is_mass_player e); [destruct Hc|].
  apply in_app_or in Hc as [Hc|Hc].
  - apply in_map_iff in Hc as (src & <- & _). eauto.
  - destruct (String.eqb (Hass.domain e) MEDIA_PLAYER_DOMAIN); [|destruct Hc].
    destruct Hc as [<-|[]]. now left.
Qed.

Lemma discovery_wf (hass : Hass.states) (c : control) :
  In c (async_get_playercontrol_entities hass) -> wf_control c.
Proof.
  intros H. apply discovery_in in H as (e & _ & [->|[src ->]]); intros Ht.
  - discriminate Ht.
  - destruct (power_control_entity e src) as (_ & _ & ->). eauto.
Qed.

(** A candidate carries the entity id of an entity of the state
    machine. *)
Lemma candidate_entity (hass : Hass.states) (c : control) :
  In c (async_get_playercontrol_entities hass) ->
  exists e, In e hass /\ entity_id c = Hass.entity_id e.
Proof.
  intros H. apply discovery_in in H as (e & He & Hc). exists e.
  split; [exact He|].
  destruct Hc as [->|[src ->]]; [reflexivity|].
  now destruct (power_control_entity e src).
Qed.

(** X1.  Every candidate of discovery names an entity that
    [hass.states.get] finds, under the candidate's own entity id. *)
Theorem discovered_entity_exists (hass : Hass.states) (c : control) :
  In c (async_get_playercontrol_entities hass) ->
  exists e, Hass.states_get hass (entity_id c) = Some e /\
            Hass.entity_id e = entity_id c.
Proof.
  intros H. apply candidate_entity in H as (e & He & Hid).
  rewrite Hid. destruct (states_get_some hass e He) as [e' He'].
  exists e'. split; [exact He' | now apply states_get_id in He'].
Qed.

Lemma store_inv (t : gmap string (list control)) (k k' : string) (c c' : control) :
  has (store_control t k c) k' c' -> has t k' c' \/ (k' = k /\ c' = c).
Proof.
  unfold store_control, has. cbv zeta.
  destruct (t !! k) as [l|] eqn:E.
  - rewrite E. simpl. destruct (decide (c ∈ l)); [now left|].
    intros (l' & Hl' & Hc'). destruct (decide (k = k')) as [<-|Hne].
    + rewrite lookup_insert_eq in Hl'. injection Hl' as <-.
      apply elem_of_app in Hc' as [Hc'|Hc'].
      * left. eauto.
      * right. apply list_elem_of_singleton in Hc'. auto.
    + rewrite lookup_insert_ne in Hl' by exact Hne. left. eauto.
  - rewrite lookup_insert_eq. simpl.
    intros (l' & Hl' & Hc'). destruct (decide (k = k')) as [<-|Hne].
    + rewrite lookup_insert_eq in Hl'. injection Hl' as <-.
      right. apply list_elem_of_singleton in Hc'. auto.
    + rewrite !lookup_insert_ne in Hl' by exact Hne. left. eauto.
Qed.

Lemma register_fold_inv (hass : Hass.states) (enabled : list string)
    (l : list control) (acc : gmap string (list control) * list register_call)
    (k : string) (c : control) :
  has (fst (fold_left (register_one hass enabled) l acc)) k c ->
  has (fst acc) k c \/
  (In c l /\ Hass.str_in (control_id c) enabled = true /\ entity_id c = k).
Proof.
  revert acc; induction l as [|c0 l IH]; intros acc H; simpl in H; [now left|].
  apply IH in H as [H|(Hin & Hen & Hk)]; [|right; simpl; auto].
  unfold register_one in H.
  destruct (Hass.str_in (control_id c0) enabled) eqn:Hen; simpl in H; [|now left].
  destruct (Hass.states_get hass (entity_id c0)) as [e|] eqn:He; [|now left].
  simpl in H. apply store_inv in H as [H|[-> ->]]; [now left|].
  right. repeat split; [now left | exact Hen |].
  symmetry. now apply states_get_id in He.
Qed.

(** X2.  What registration adds to the table is a candidate of
    discovery whose control id is enabled, stored under its own entity
    id: a control that is not enabled is never registered. *)
Theorem register_adds_only_enabled (self : HassPlayerControls)
    (hass : Hass.states) (k : string) (c : control) :
  has (_registered_controls (fst (async_register_player_controls self hass))) k c ->
  has (_registered_controls self) k c \/
  (In c (async_get_playercontrol_entities hass) /\
   control_id c ∈ enabled_controls (config_options self) /\
   entity_id c = k).
Proof.
  unfold async_register_player_controls. cbn [fst _registered_controls].
  intros H. apply register_fold_inv in H as [H|(Hin & Hen & Hk)]; [now left|].
  right. repeat split; auto. now apply str_in_elem_of.
Qed.

(** X3.  Registration never takes a control out of the table, whatever
    the options and the entities are. *)
Theorem register_never_removes (self : HassPlayerControls) (hass : Hass.states)
    (k : string) (c : control) :
  has (_registered_controls self) k c ->
  has (_registered_controls (fst (async_register_player_controls self hass))) k c.
Proof.
  intros H. unfold async_register_player_controls. cbn [fst _registered_controls].
  now apply register_fold_mono.
Qed.

(** The registrations of a round do not depend on the table. *)
Lemma register_calls_indep (hass : Hass.states) (enabled : list string)
    (l : list control) (t1 t2 : gmap string (list control))
    (calls : list register_call) :
  snd (fold_left (register_one hass enabled) l (t1, calls)) =
  snd (fold_left (register_one hass enabled) l (t2, calls)).
Proof.
  revert t1 t2 calls; induction l as [|c l IH]; intros t1 t2 calls; simpl;
    [reflexivity|].
  unfold register_one at 2 4.
  destruct (negb (Hass.str_in (control_id c) enabled)); [apply IH|].
  destruct (Hass.states_get hass (entity_id c)); [|apply IH].
  simpl. apply IH.
Qed.

(** X4.  Registration is idempotent: a second call on the same bridge,
    with the same options and entities, leaves the bridge as the first
    call left it and awaits the same registrations again. *)
Theorem register_idempotent (self : HassPlayerControls) (hass : Hass.states) :
  async_register_player_controls
    (fst (async_register_player_controls self hass)) hass =
  async_register_player_controls self hass.
Proof.
  unfold async_register_player_controls.
  cbn [fst snd config_options _registered_controls].
  set (E := enabled_controls (config_options self)).
  set (D := async_get_playercontrol_entities hass).
  set (t := _registered_controls self).
  assert (Ht : fst (fold_left (register_one hass E) D
                      (fst (fold_left (register_one hass E) D (t, [])), [])) =
               fst (fold_left (register_one hass E) D (t, []))).
  { apply register_fold_stable. intros c e Hin Hen He.
    now apply register_fold_has. }
  rewrite Ht. f_equal.
  apply register_calls_indep.
Qed.

Lemma register_fold_bound (hass : Hass.states) (enabled : list string)
    (l : list control) (t : gmap string (list control))
    (calls : list register_call) :
  (forall c, In c l -> exists e, Hass.states_get hass (entity_id c) = Some e) ->
  map reg_cb_control (snd (fold_left (register_one hass enabled) l (t, calls))) =
  map reg_cb_control calls ++
  List.filter (fun c => Hass.str_in (control_id c) enabled) l.
Proof.
  revert t calls; induction l as [|c l IH]; intros t calls Hex; simpl.
  - now rewrite app_nil_r.
  - assert (Hex' : forall c', In c' l ->
              exists e, Hass.states_get hass (entity_id c') = Some e).
    { intros c' Hc'. apply Hex. now right. }
    unfold register_one at 2.
    destruct (Hass.str_in (control_id c) enabled); simpl; [|now apply IH].
    destruct (Hex c (or_introl eq_refl)) as [e ->]. simpl.
    rewrite IH by exact Hex'. rewrite map_app. simpl. now rewrite <- app_assoc.
Qed.

(** X5.  A round of registration awaits one registration for every
    candidate of discovery whose control id is enabled, in the order of
    discovery, each bound to its candidate and carrying its type, id and
    name; the guard for a missing entity never drops a candidate. *)
Theorem register_calls_enabled (self : HassPlayerControls) (hass : Hass.states) :
  map reg_cb_control (snd (async_register_player_controls self hass)) =
  List.filter
    (fun c => Hass.str_in (control_id c) (enabled_controls (config_options self)))
    (async_get_playercontrol_entities hass) /\
  Forall (fun call =>
            reg_control_type call = control_type (reg_cb_control call) /\
            reg_control_id call = control_id (reg_cb_control call) /\
            reg_name call = name (reg_cb_control call) /\
            reg_provider_name call = "Home Assistant")
    (snd (async_register_player_controls self hass)).
Proof.
  unfold async_register_player_controls. cbn [snd]. split.
  - rewrite register_fold_bound; [reflexivity|].
    intros c Hc. apply candidate_entity in Hc as (e & He & Hid).
    rewrite Hid. apply (states_get_some hass e He).
  - generalize (async_get_playercontrol_entities hass) as l.
    generalize (_registered_controls self) as t.
    assert (G : forall l t calls,
      Forall (fun call =>
            reg_control_type call = control_type (reg_cb_control call) /\
            reg_control_id call = control_id (reg_cb_control call) /\
            reg_name call = name (reg_cb_control call) /\
            reg_provider_name call = "Home Assistant") calls ->
      Forall (fun call =>
            reg_control_type call = control_type (reg_cb_control call) /\
            reg_control_id call = control_id (reg_cb_control call) /\
            reg_name call = name (reg_cb_control call) /\
            reg_provider_name call = "Home Assistant")
        (snd (fold_left
                (register_one hass (enabled_controls (config_options self)))
                l (t, calls)))).
    { induction l as [|c l IH]; intros t calls Hc; simpl; [exact Hc|].
      unfold register_one at 2.
      destruct (negb _); [now apply IH|].
      destruct (Hass.states_get hass (entity_id c)); [|now apply IH].
      simpl. apply IH. apply Forall_app. split; [exact Hc|].
      constructor; [|constructor]. simpl. auto. }
    intros t l. apply G. constructor.
Qed.

End ControlInvariants.

(** ** player_controls.py: state changes and requests *)

Section ControlTraffic.

Import PyVal PlayerControls ControlProps.

Lemma init_wf_table (opts : config_options_t) :
  wf_table (_registered_controls (init opts)).
Proof. intros k c (l & Hl & _). simpl in Hl. now rewrite lookup_empty in Hl. Qed.

(** Registration keeps the table well formed. *)
Lemma register_wf_table (self : HassPlayerControls) (hass : Hass.states) :
  wf_table (_registered_controls self) ->
  wf_table (_registered_controls (fst (async_register_player_controls self hass))).
Proof.
  intros Hwf k c H. unfold async_register_player_controls in H.
  cbn [fst _registered_controls] in H.
  apply register_fold_inv in H as [H|(Hin & _ & _)].
  - now apply (Hwf k).
  - now apply (discovery_wf hass).
Qed.

Lemma pushed_state_wf (state_obj : Hass.State) (c : control) :
  wf_control c ->
  exists st, pushed_state state_obj c = Ok st /\
    pushed_for state_obj c
      {| upd_control_id := control_id c; upd_state := st |}.
Proof.
  intros Hwf. unfold pushed_for. cbn [upd_control_id upd_state].
  destruct (control_type c) eqn:Ht.
  - destruct (Hwf Ht) as [src Hs]. rewrite Hs.
    destruct src as [|a r].
    + unfold pushed_state. rewrite (sourced_power_plain _ Ht Hs). rstep.
      rewrite Ht. eexists. split; [reflexivity|]. split; reflexivity.
    + rewrite (pushed_state_sourced _ _ _ _ Ht Hs).
      eexists. split; [reflexivity|]. split; reflexivity.
  - unfold pushed_state. rewrite (sourced_power_volume _ Ht). rstep.
    rewrite Ht. eexists. split; [reflexivity|]. split; reflexivity.
Qed.

Lemma push_all_wf (state_obj : Hass.State) (controls : list control) :
  Forall wf_control controls ->
  exists calls, push_all state_obj controls = Ok calls /\
    Forall2 (pushed_for state_obj) controls calls.
Proof.
  induction 1 as [|c l Hc Hl IH]; simpl.
  - exists []. split; [reflexivity | constructor].
  - destruct (pushed_state_wf state_obj c Hc) as (st & -> & Hp).
    destruct IH as (calls & -> & Hall). rstep.
    eexists. split; [reflexivity|]. now constructor.
Qed.

(** X6.  On a bridge whose table is well formed (as registration keeps
    it), a state change of an entity with registered controls awaits
    exactly one update per control of that entity, in the order of the
    table and without raising: a sourced power control is pushed as
    "the entity's current source is the control's source", a plain
    power control as "the state is none of off, unavailable, unknown",
    a volume control as the level times 100. *)
Theorem state_event_pushes (self : HassPlayerControls) (event : Event)
    (state_obj : Hass.State) (controls : list control) :
  wf_table (_registered_controls self) ->
  _registered_controls self !! ev_entity_id event = Some controls ->
  ev_new_state event = Some state_obj ->
  Hass.entity_id state_obj = ev_entity_id event ->
  exists calls,
    async_hass_state_event self event = Ok calls /\
    Forall2 (pushed_for state_obj) controls calls.
Proof.
  intros Hwf Hl Hs Hid. unfold async_hass_state_event.
  rewrite Hl, Hs, Hid, Hl. simpl key_get. rstep.
  apply push_all_wf. apply Forall_forall. intros c Hc.
  apply (Hwf (ev_entity_id event)). exists controls.
  split; [exact Hl | exact Hc].
Qed.

(** X7.  A state change of an entity without registered controls, or an
    event without a new state (the entity was removed), awaits no
    update; and no event ever awaits an update for a control that the
    table does not list under the entity of the new state. *)
Theorem state_event_scope (self : HassPlayerControls) (event : Event) :
  (_registered_controls self !! ev_entity_id event = None ->
   async_hass_state_event self event = Ok []) /\
  (ev_new_state event = None -> async_hass_state_event self event = Ok []) /\
  (forall calls call,
     async_hass_state_event self event = Ok calls -> In call calls ->
     exists state_obj c,
       ev_new_state event = Some state_obj /\
       has (_registered_controls self) (Hass.entity_id state_obj) c /\
       upd_control_id call = control_id c).
Proof.
  unfold async_hass_state_event. split; [|split].
  - now intros ->.
  - intros ->. now destruct (_ !! _).
  - intros calls call.
    destruct (_registered_controls self !! ev_entity_id event) as [l0|];
      [|intros [= <-] []].
    destruct (ev_new_state event) as [s|]; [|intros [= <-] []].
    destruct (_registered_controls self !! Hass.entity_id s) as [l|] eqn:El;
      simpl key_get; rstep; [|discriminate].
    intros Hp Hin. exists s.
    assert (G : forall l1 calls1, push_all s l1 = Ok calls1 -> In call calls1 ->
              exists c, In c l1 /\ upd_control_id call = control_id c).
    { clear. induction l1 as [|c l1 IH]; simpl; intros calls1.
      - intros [= <-] [].
      - destruct (pushed_state s c); rstep; [|discriminate].
        destruct (push_all s l1) as [rest|]; rstep; [|discriminate].
        intros [= <-] [<-|Hin].
        + exists c. split; [now left | reflexivity].
        + destruct (IH rest eq_refl Hin) as (c' & Hc' & E). exists c'.
          split; [now right | exact E]. }
    destruct (G l calls Hp Hin) as (c & Hc & E). exists c.
    split; [reflexivity|]. split; [|exact E].
    exists l. split; [exact El | now apply list_elem_of_In].
Qed.

(** X8.  Every service call that a request awaits goes to the domain of
    the entity found and names the control's own entity id; it is one of
    [select_source], [turn_on], [turn_off] and [volume_set]; a source
    travels only with [select_source], and is the control's; a level
    only with [volume_set], and only for a volume control. *)
Theorem set_state_targets (hass : Hass.states) (c : control) (v : pyval)
    (e : Hass.State) (calls : list Hass.service_call) :
  Hass.states_get hass (entity_id c) = Some e ->
  async_set_player_control_state hass c v = Ok calls ->
  Forall (targets c e) calls.
Proof.
  intros He. unfold async_set_player_control_state. cbv zeta. rewrite He.
  unfold sourced_power.
  assert (Pick : forall call,
    Hass.call_domain call = Hass.domain e ->
    Hass.sd_entity_id (Hass.call_data call) = entity_id c ->
    ((Hass.call_service call = "select_source" /\
      Hass.sd_source (Hass.call_data call) = source c /\
      Hass.sd_volume_level (Hass.call_data call) = None) \/
     (Hass.call_service call = "turn_on" /\
      Hass.sd_source (Hass.call_data call) = None /\
      Hass.sd_volume_level (Hass.call_data call) = None) \/
     (Hass.call_service call = "turn_off" /\
      Hass.sd_source (Hass.call_data call) = None /\
      Hass.sd_volume_level (Hass.call_data call) = None) \/
     (Hass.call_service call = "volume_set" /\
      control_type c = CONTROL_TYPE_VOLUME /\
      Hass.sd_source (Hass.call_data call) = None /\
      is_Some (Hass.sd_volume_level (Hass.call_data call)))) ->
    Forall (targets c e) [call]).
  { intros call H1 H2 H3. constructor; [|constructor]. now repeat split. }
  destruct (control_type c) eqn:Ht.
  - destruct (source c) as [src|] eqn:Hs; simpl key_get; rstep; [|discriminate].
    destruct (PyStr.truthy src).
    + destruct (truthy v && String.eqb (Hass.state e) "off");
        [| destruct (decide _)]; intros [= <-].
      * apply Pick; [reflexivity | reflexivity |]. left. now repeat split.
      * apply Pick; [reflexivity | reflexivity |]. do 2 right. left. now repeat split.
      * constructor.
    + destruct (truthy v); intros [= <-].
      * apply Pick; [reflexivity | reflexivity |]. right. left. now repeat split.
      * apply Pick; [reflexivity | reflexivity |]. do 2 right. left. now repeat split.
  - rstep. destruct (div100 v); rstep; [|discriminate].
    intros [= <-]. apply Pick; [reflexivity | reflexivity |].
    do 3 right. simpl. repeat split; eauto.
Qed.

End ControlTraffic.

Section ControlWitnesses.

Import PyVal PlayerControls ControlProps Samples.

Lemma discovered_entity_exists_witness :
  exists e, Hass.states_get [receiver] (entity_id receiver_tv) = Some e /\
            Hass.entity_id e = entity_id receiver_tv.
Proof.
  refine (discovered_entity_exists [receiver] receiver_tv _). now left.
Defined.

Lemma bridge_all_has_tv :
  has (_registered_controls bridge_all) "media_player.receiver" receiver_tv.
Proof.
  exists [receiver_tv; receiver_cd; receiver_volume].
  split; [vm_compute; reflexivity | repeat constructor].
Qed.

Lemma register_adds_only_enabled_witness :
  has (_registered_controls (init volume_only)) "media_player.receiver" receiver_tv \/
  (In receiver_tv (async_get_playercontrol_entities [receiver]) /\
   control_id receiver_tv ∈
     ["media_player.receiver_power_TV"; "media_player.receiver_power_CD";
      "media_player.receiver_volume"] /\
   entity_id receiver_tv = "media_player.receiver").
Proof.
  exact (register_adds_only_enabled
           (init (options ["media_player.receiver_power_TV";
                           "media_player.receiver_power_CD"]
                          ["media_player.receiver_volume"]))
           [receiver] "media_player.receiver" receiver_tv bridge_all_has_tv).
Defined.

Lemma register_never_removes_witness :
  has (_registered_controls
         (fst (async_register_player_controls
                 (with_options bridge_all volume_only) [])))
      "media_player.receiver" receiver_tv.
Proof.
  exact (register_never_removes (with_options bridge_all volume_only) []
           "media_player.receiver" receiver_tv bridge_all_has_tv).
Defined.

Lemma bridge_all_wf : wf_table (_registered_controls bridge_all).
Proof. apply register_wf_table, init_wf_table. Qed.

Lemma state_event_pushes_witness :
  exists calls,
    async_hass_state_event bridge_all
      {| ev_entity_id := "media_player.receiver"; ev_new_state := Some receiver |}
    = Ok calls /\
    Forall2 (pushed_for receiver) [receiver_tv; receiver_cd; receiver_volume] calls.
Proof.
  refine (state_event_pushes bridge_all
            {| ev_entity_id := "media_player.receiver";
               ev_new_state := Some receiver |}
            receiver [receiver_tv; receiver_cd; receiver_volume]
            bridge_all_wf _ eq_refl eq_refl).
  vm_compute. reflexivity.
Defined.

Lemma state_event_scope_witness :
  async_hass_state_event bridge_all
    {| ev_entity_id := "switch.lamp"; ev_new_state := Some receiver |} = Ok [].
Proof.
  refine (proj1 (state_event_scope bridge_all
            {| ev_entity_id := "switch.lamp"; ev_new_state := Some receiver |}) _).
  vm_compute. reflexivity.
Defined.

Lemma set_state_targets_witness :
  Forall (targets receiver_cd receiver)
    [entity_call receiver "media_player.receiver" SERVICE_TURN_OFF None None].
Proof.
  exact (set_state_targets [receiver] receiver_cd (VBool false) receiver
           [entity_call receiver "media_player.receiver" SERVICE_TURN_OFF None None]
           eq_refl eq_refl).
Defined.

End ControlWitnesses.

(** ** media_source.py: the codec with its prefixes *)

Section CodecPrefixes.

Import PyStr MediaSource.

Variable DOMAIN : string.

Lemma find_none_not_prefix (sep s : string) :
  find sep s = None -> startswith sep s = false.
Proof.
  intros H. destruct (startswith sep s) eqn:E; [|reflexivity].
  apply find_startswith in E. congruence.
Qed.

Lemma few_slashes_no_scheme (s : string) :
  count_char "/" s < 3 -> find (MASS_URI_SCHEME DOMAIN) s = None.
Proof.
  induction s as [|c s IH]; intros H.
  - rewrite find_nil. now rewrite (not_scheme_prefix DOMAIN "" H).
  - rewrite find_cons, (not_scheme_prefix DOMAIN _ H).
    rewrite IH; [reflexivity|]. simpl in H. lia.
Qed.

Lemma strip_uri_scheme (id : string) :
  find (MASS_URI_SCHEME DOMAIN) id = None ->
  strip_uri DOMAIN (MASS_URI_SCHEME DOMAIN +:+ id) = strip_uri DOMAIN id.
Proof.
  intros H. unfold strip_uri.
  pose proof (scheme_not_empty DOMAIN) as Hne. cbv zeta in Hne.
  generalize dependent (MASS_URI_SCHEME DOMAIN). intros sch H Hne.
  rewrite (startswith_app_same sch id), (find_none_not_prefix _ _ H).
  assert (E : split sch (sch +:+ id) = [""; id]).
  { apply (split_two sch "" id).
    - exact Hne.
    - apply find_startswith. apply (startswith_app_same sch id).
    - exact H. }
  rewrite E. reflexivity.
Qed.

Lemma parse_behind_scheme (id : string) :
  find (MASS_URI_SCHEME DOMAIN) id = None ->
  async_parse_uri DOMAIN (MASS_URI_SCHEME DOMAIN +:+ id) =
  async_parse_uri DOMAIN id.
Proof.
  intros H. unfold async_parse_uri. now rewrite (strip_uri_scheme id H).
Qed.

(** X9.  Decoding tolerates the scheme prefix: for an identifier in
    which the scheme does not occur, decoding the identifier behind the
    scheme gives what decoding the identifier alone gives, a result or
    an exception. *)
Theorem parse_with_scheme (id : string) :
  contains (MASS_URI_SCHEME DOMAIN) id = false ->
  async_parse_uri DOMAIN (MASS_URI_SCHEME DOMAIN +:+ id) =
  async_parse_uri DOMAIN id.
Proof.
  intros H. apply contains_false in H. now apply parse_behind_scheme.
Qed.

(** X10.  Decoding tolerates one leading '/': for an identifier that
    starts neither with '/' nor with the scheme, decoding it behind a
    '/' gives what decoding it alone gives. *)
Theorem parse_leading_slash (id : string) :
  startswith "/" id = false ->
  startswith (MASS_URI_SCHEME DOMAIN) id = false ->
  async_parse_uri DOMAIN ("/" +:+ id) = async_parse_uri DOMAIN id.
Proof.
  intros H1 H2. unfold async_parse_uri, strip_uri. rewrite H2.
  assert (E : startswith (MASS_URI_SCHEME DOMAIN) ("/" +:+ id) = false) by reflexivity.
  rewrite E. rstep. rewrite H1.
  replace (startswith "/" ("/" +:+ id)) with true by reflexivity.
  reflexivity.
Qed.

Lemma create_content_id (mass : MusicAssistant) (item : media_item) (b : BrowseMedia) :
  async_create_media_item_source DOMAIN mass item = Ok b ->
  media_content_id b = MASS_URI_SCHEME DOMAIN +:+ identifier b.
Proof.
  unfold async_create_media_item_source.
  destruct (dict_get CONTENT_TYPE_MEDIA_CLASS (mi_media_type item)); [|discriminate].
  rstep.
  destruct (String.eqb (mi_media_type item) "album");
    [destruct (key_get (mi_artist item)); [|discriminate]|];
    rstep;
    (destruct (String.eqb (mi_media_type item) "track");
     [destruct (key_get (mi_artists item)); [|discriminate]|]);
    rstep; now intros [= <-].
Qed.

(** X11.  The round trip also holds for the [media_content_id] of a
    node, the identifier behind the scheme: under the conditions of the
    round trip of the identifier, decoding it returns the server id,
    category, provider and item id that went into the node. *)
Theorem parse_content_id_roundtrip (mass : MusicAssistant) (item : media_item)
    (b : BrowseMedia) :
  async_create_media_item_source DOMAIN mass item = Ok b ->
  plain_field (server_id mass) = true ->
  plain_field (mi_media_type item) = true ->
  plain_field (mi_provider item) = true ->
  plain_field (mi_item_id item) = true ->
  server_id mass <> "" ->
  last_char (mi_provider item) <> Some "#"%char ->
  async_parse_uri DOMAIN (media_content_id b) =
  Ok {| item_id := mi_item_id item;
        provider := mi_provider item;
        media_type := mi_media_type item;
        mass_id := server_id mass;
        content_id := mi_provider item +:+ ITEM_ID_SEPERATOR +:+ mi_item_id item |}.
Proof.
  intros Hb Hs Hc Hp Hi Hne Hl.
  rewrite (create_content_id _ _ _ Hb), (create_identifier DOMAIN _ _ _ Hb).
  unfold plain_field in *.
  apply andb_prop in Hs as [Hs _], Hc as [Hc _], Hp as [Hp Hp3], Hi as [Hi Hi3].
  apply negb_true_iff, contains_false in Hs, Hc, Hp, Hp3, Hi, Hi3.
  rewrite parse_behind_scheme.
  - now apply parse_item_identifier.
  - apply few_slashes_no_scheme.
    unfold item_identifier. rewrite !count_char_app.
    rewrite (find1_none_count _ _ Hs), (find1_none_count _ _ Hc),
      (find1_none_count _ _ Hp), (find1_none_count _ _ Hi). simpl. lia.
Qed.

End CodecPrefixes.

Section CodecPrefixWitnesses.

Import PyStr MediaSource Samples.

Lemma parse_with_scheme_witness :
  async_parse_uri DOMAIN (MASS_URI_SCHEME DOMAIN +:+ "srv1/albums") =
  async_parse_uri DOMAIN "srv1/albums".
Proof. exact (parse_with_scheme DOMAIN "srv1/albums" eq_refl). Defined.

Lemma parse_leading_slash_witness :
  async_parse_uri DOMAIN "/srv1/albums" = async_parse_uri DOMAIN "srv1/albums".
Proof. exact (parse_leading_slash DOMAIN "srv1/albums" eq_refl eq_refl). Defined.

Lemma parse_content_id_roundtrip_witness :
  async_parse_uri DOMAIN "media-source://music_assistant/srv1/album/spotify###42" =
  Ok {| item_id := "42"; provider := "spotify"; media_type := "album";
        mass_id := "srv1"; content_id := "spotify###42" |}.
Proof.
  refine (parse_content_id_roundtrip DOMAIN (server "srv1") (album "spotify" "42")
            {| title := "Abbey Road";
               media_class := "album";
               children_media_class := Some "track";
               media_content_id := "media-source://music_assistant/srv1/album/spotify###42";
               media_content_type := "audio";
               can_play := true;
               can_expand := true;
               thumbnail := None;
               identifier := "srv1/album/spotify###42";
               domain := "music_assistant" |}
            _ _ _ _ _ _ _);
    try reflexivity; discriminate.
Defined.

End CodecPrefixWitnesses.

(** ** media_source.py: listings and resolution *)

Section ListingFacts.

Import PyStr MediaSource Browse.

Variable DOMAIN : string.
Variable DEFAULT_NAME : string.

(** The content id of a decoded uri is empty or holds the separator. *)
Lemma parse_content_sep (uri : string) (m : parsed_uri) :
  async_parse_uri DOMAIN uri = Ok m ->
  content_id m = "" \/ find ITEM_ID_SEPERATOR (content_id m) <> None.
Proof.
  destruct (strip_uri_ok DOMAIN uri) as [u Hu].
  rewrite (parse_uri_segments DOMAIN _ _ Hu).
  destruct (split "/" u) as [|m0 [|t [|c l]]]; try discriminate.
  - intros [= <-]. now left.
  - destruct c as [|a c']; [intros [= <-]; now left|].
    change (truthy (String a c')) with true. cbv iota.
    destruct (unpack2_cases (String a c')) as [[-> _] | (n & F1 & _ & ->)];
      rstep; [discriminate|].
    intros [= <-]. right. simpl content_id. congruence.
Qed.

Lemma library_key (k title : string) :
  dict_find LIBRARY_MAP k = Some title ->
  In k ["playlists"; "artists"; "albums"; "tracks"; "radios"].
Proof.
  unfold LIBRARY_MAP. cbn [dict_find].
  repeat (match goal with
          | |- context [String.eqb ?a k] =>
              destruct (String.eqb_spec a k) as [<-|_]; [simpl; tauto|]
          end).
  discriminate.
Qed.

(** X12.  The generic source of a decoded uri has no title: the title is
    looked up in [LIBRARY_MAP] under the content id, which is empty or
    holds the separator and so is never one of its keys.  Its
    identifier is '{server_id}/{media_type}/{content_id}'. *)
Theorem generic_source_untitled (srv : Server) (uri : string)
    (m : parsed_uri) (g : BrowseMediaSource) :
  async_parse_uri DOMAIN uri = Ok m ->
  async_create_generic_source DOMAIN srv m = Ok g ->
  src_title g = None /\
  src_identifier g =
    server_id (mass srv) +:+ "/" +:+ media_type m +:+ "/" +:+ content_id m.
Proof.
  intros Hm.
  assert (Ht : dict_find LIBRARY_MAP (content_id m) = None).
  { destruct (dict_find LIBRARY_MAP (content_id m)) as [title|] eqn:E;
      [|reflexivity].
    apply library_key in E.
    destruct (parse_content_sep _ _ Hm) as [H0|Hsep].
    - rewrite H0 in E. simpl in E. intuition discriminate.
    - exfalso. apply Hsep. simpl in E.
      destruct E as [<-|[<-|[<-|[<-|[<-|[]]]]]]; reflexivity. }
  unfold async_create_generic_source. cbv zeta. rewrite Ht.
  destruct (dict_get CONTENT_TYPE_MEDIA_CLASS (media_type m)); rstep;
    [|discriminate].
  now intros [= <-].
Qed.

(** Decoding two plain segments. *)
Lemma parse_two_segments (srv cat : string) :
  srv <> "" -> find "/" srv = None -> find "/" cat = None ->
  async_parse_uri DOMAIN (srv +:+ "/" +:+ cat) =
  Ok {| item_id := ""; provider := ""; media_type := cat; mass_id := srv;
        content_id := "" |}.
Proof.
  intros Hne Hs Hc.
  assert (Hstrip : strip_uri DOMAIN (srv +:+ "/" +:+ cat) = Ok (srv +:+ "/" +:+ cat)).
  { apply strip_uri_plain.
    - rewrite !count_char_app.
      rewrite (find1_none_count _ _ Hs), (find1_none_count _ _ Hc). simpl. lia.
    - now apply find1_head. }
  rewrite (parse_uri_segments DOMAIN _ _ Hstrip).
  rewrite (split_two "/" srv cat);
    [reflexivity | exact slash_not_empty | now apply (find1_app "/"%char) | exact Hc].
Qed.

(** X13.  The server listing has one child per entry of [LIBRARY_MAP],
    in its order and under its title, and every child can be browsed:
    for a server id that is not empty and free of '/', the identifier
    of the child decodes to that server id, the entry's key as
    [media_type], and no provider or item id. *)
Theorem server_listing_decodes (srv : Server) :
  server_id (mass srv) <> "" ->
  contains "/" (server_id (mass srv)) = false ->
  Forall2
    (fun kv child =>
       src_title child = Some (snd kv) /\
       src_identifier child = server_id (mass srv) +:+ "/" +:+ fst kv /\
       async_parse_uri DOMAIN (src_identifier child) =
       Ok {| item_id := ""; provider := ""; media_type := fst kv;
             mass_id := server_id (mass srv); content_id := "" |})
    LIBRARY_MAP
    (snd (async_create_server_listing DOMAIN DEFAULT_NAME srv)).
Proof.
  intros Hne Hs. apply contains_false in Hs.
  unfold async_create_server_listing. cbn [snd].
  rewrite fold_append. cbn [app].
  unfold LIBRARY_MAP. cbn [map].
  repeat constructor; cbn [src_identifier fst];
    now apply parse_two_segments.
Qed.

Lemma attach_children_spec (srv : Server) (items : list media_item) :
  match attach_children DOMAIN srv items with
  | Ok children =>
      Forall2 (fun item child =>
                 async_create_media_item_source DOMAIN (mass srv) item = Ok child)
        items children
  | Raise e =>
      exists item, In item items /\
        async_create_media_item_source DOMAIN (mass srv) item = Raise e
  end.
Proof.
  induction items as [|item items IH]; simpl; [constructor|].
  destruct (async_create_media_item_source DOMAIN (mass srv) item) as [child|e] eqn:E;
    rstep.
  - destruct (attach_children DOMAIN srv items) as [children|e]; rstep.
    + now constructor.
    + destruct IH as (it & Hin & Hit). exists it. split; [now right | exact Hit].
  - exists item. split; [now left | exact E].
Qed.

Lemma attach_children_fails (srv : Server) (items : list media_item)
    (item : media_item) (e : exn) :
  In item items ->
  async_create_media_item_source DOMAIN (mass srv) item = Raise e ->
  exists e', attach_children DOMAIN srv items = Raise e'.
Proof.
  induction items as [|item0 items IH]; intros Hin He; [destruct Hin|].
  simpl. destruct Hin as [->|Hin].
  - rewrite He. rstep. eauto.
  - destruct (async_create_media_item_source DOMAIN (mass srv) item0); rstep;
      [|eauto].
    destruct (IH Hin He) as [e' ->]. rstep. eauto.
Qed.

(** X14.  An item listing skips nothing.  When it returns, its children
    are the nodes of all the items to attach, in their order; and one
    item that [async_create_media_item_source] cannot convert makes the
    whole listing raise. *)
Theorem item_listing_skips_nothing (srv : Server) (m : parsed_uri) :
  (forall source children,
     async_create_item_listing DOMAIN srv m = Ok (source, children) ->
     exists named items,
       listing_parts DOMAIN srv m = Ok (named, items) /\
       Forall2 (fun item child =>
                  async_create_media_item_source DOMAIN (mass srv) item = Ok child)
         items children) /\
  (forall named items item e,
     listing_parts DOMAIN srv m = Ok (named, items) ->
     In item items ->
     async_create_media_item_source DOMAIN (mass srv) item = Raise e ->
     exists e', async_create_item_listing DOMAIN srv m = Raise e').
Proof.
  unfold async_create_item_listing. split.
  - intros source children.
    destruct (listing_parts DOMAIN srv m) as [[named items]|]; rstep;
      [|discriminate].
    cbn [fst snd].
    destruct (match named with
              | Some source0 => Ok (inl source0)
              | None => _
              end) as [src|]; rstep; [|discriminate].
    pose proof (attach_children_spec srv items) as Hspec.
    destruct (attach_children DOMAIN srv items) as [ch|]; rstep; [|discriminate].
    intros [= _ <-]. eauto.
  - intros named items item e -> Hin He. rstep. cbn [fst snd].
    destruct (match named with
              | Some source0 => Ok (inl source0)
              | None => _
              end) as [src|]; rstep; [|eauto].
    destruct (attach_children_fails srv items item e Hin He) as [e' ->].
    rstep. eauto.
Qed.

(** X15.  [async_resolve_media] never returns a playable media: the
    dictionary that [async_parse_uri] returns has no key
    ["mass_server_id"], so with a known server the lookup raises
    [KeyError]; without one the call raises [BrowseError]; and what
    decoding raises passes through. *)
Theorem resolve_never_returns (instances : list Server) (identifier : string) :
  async_resolve_media DOMAIN instances identifier =
  match async_parse_uri DOMAIN identifier with
  | Raise e => Throw (Python e)
  | Ok _ =>
      match instances with
      | [] => Throw (BrowseError "Invalid Music Assistance instance")
      | _ :: _ => Throw (Python KeyError)
      end
  end.
Proof.
  unfold async_resolve_media.
  destruct (async_parse_uri DOMAIN identifier) as [m|e]; simpl; [|reflexivity].
  now destruct instances.
Qed.

Lemma endswith_app (a suf : string) : endswith suf (a +:+ suf) = true.
Proof.
  unfold endswith. rewrite len_app.
  replace (len a + len suf - len suf) with (len a + 0) by lia.
  rewrite drop_app. simpl. apply String.eqb_refl.
Qed.

(** X16.  The identifier of a server listing does not lead back to its
    server.  For a server id free of '/', browsing
    '{server_id}/root' looks the server up under the second segment,
    "root": it returns the listing of the first known server whose id is
    "root" and raises [BrowseError] when there is none, whether or not
    the server of the identifier is known. *)
Theorem browse_server_root (instances : list Server) (srv : Server) :
  contains "/" (server_id (mass srv)) = false ->
  async_browse_media DOMAIN DEFAULT_NAME instances
    (Some (src_identifier (fst (async_create_server_listing DOMAIN DEFAULT_NAME srv)))) =
  match first_server instances "root" with
  | Some named_root =>
      Return (ServerResult (async_create_server_listing DOMAIN DEFAULT_NAME named_root))
  | None => Throw (BrowseError "Invalid Music Assistance instance")
  end.
Proof.
  intros Hs. apply contains_false in Hs.
  unfold async_create_server_listing. cbn [fst src_identifier].
  unfold async_browse_media.
  rewrite (endswith_app (server_id (mass srv)) "/root").
  change (server_id (mass srv) +:+ "/root")
    with (server_id (mass srv) +:+ "/" +:+ "root").
  rewrite (split_two "/" (server_id (mass srv)) "root");
    [reflexivity | exact slash_not_empty | now apply (find1_app "/"%char)
    | reflexivity].
Qed.

Lemma endswith_root_key (sid k : string) :
  In k ["playlists"; "artists"; "albums"; "tracks"; "radios"] ->
  endswith "/root" (sid +:+ "/" +:+ k) = false.
Proof.
  intros Hk. unfold endswith. rewrite len_app.
  simpl in Hk. destruct Hk as [<-|[<-|[<-|[<-|[<-|[]]]]]].
  - replace (len sid + len ("/" +:+ "playlists") - len "/root")
      with (len sid + 5) by (simpl; lia).
    now rewrite drop_app.
  - replace (len sid + len ("/" +:+ "artists") - len "/root")
      with (len sid + 3) by (simpl; lia).
    now rewrite drop_app.
  - replace (len sid + len ("/" +:+ "albums") - len "/root")
      with (len sid + 2) by (simpl; lia).
    now rewrite drop_app.
  - replace (len sid + len ("/" +:+ "tracks") - len "/root")
      with (len sid + 2) by (simpl; lia).
    now rewrite drop_app.
  - replace (len sid + len ("/" +:+ "radios") - len "/root")
      with (len sid + 2) by (simpl; lia).
    now rewrite drop_app.
Qed.

(** X17.  Browsing a child of the server listing reaches the library:
    for a server id that is not empty and free of '/', the identifier
    '{server_id}/{key}' of a library category is answered by the item
    listing of the first known server with that id, asked for the
    category alone; and [BrowseError] is raised if no known server has
    that id. *)
Theorem browse_category (instances : list Server) (sid key : string) :
  sid <> "" -> contains "/" sid = false ->
  In key ["playlists"; "artists"; "albums"; "tracks"; "radios"] ->
  async_browse_media DOMAIN DEFAULT_NAME instances (Some (sid +:+ "/" +:+ key)) =
  match first_server instances sid with
  | Some srv =>
      await l <- lift (async_create_item_listing DOMAIN srv
                         {| item_id := ""; provider := ""; media_type := key;
                            mass_id := sid; content_id := "" |});
      Return (ItemResult l)
  | None => Throw (BrowseError "Invalid Music Assistance instance")
  end.
Proof.
  intros Hne Hs Hk. apply contains_false in Hs.
  unfold async_browse_media. rewrite (endswith_root_key sid key Hk).
  rewrite parse_two_segments; auto.
  simpl in Hk. destruct Hk as [<-|[<-|[<-|[<-|[<-|[]]]]]]; reflexivity.
Qed.

End ListingFacts.

Section ListingWitnesses.

Import PyStr MediaSource Browse Samples MoreSamples.

Lemma generic_source_untitled_witness :
  src_title
    {| src_domain := DOMAIN;
       src_identifier := "srv1/albums/";
       src_title := None;
       src_media_class := "directory";
       src_children_media_class := Some "album";
       src_media_content_type := "audio";
       src_can_play := false;
       src_can_expand := true;
       src_thumbnail := Some "" |} = None /\
  "srv1/albums/" = "srv1" +:+ "/" +:+ "albums" +:+ "/" +:+ "".
Proof.
  exact (generic_source_untitled DOMAIN living_room "srv1/albums" albums_request
           _ eq_refl eq_refl).
Defined.

Lemma server_listing_decodes_witness :
  Forall2
    (fun kv child =>
       src_title child = Some (snd kv) /\
       src_identifier child = "srv1" +:+ "/" +:+ fst kv /\
       async_parse_uri DOMAIN (src_identifier child) =
       Ok {| item_id := ""; provider := ""; media_type := fst kv;
             mass_id := "srv1"; content_id := "" |})
    LIBRARY_MAP
    (snd (async_create_server_listing DOMAIN DEFAULT_NAME living_room)).
Proof.
  refine (server_listing_decodes DOMAIN DEFAULT_NAME living_room _ eq_refl).
  discriminate.
Defined.

(** The library of tracks holds an item of an unknown category: the
    listing of the tracks raises. *)
Lemma item_listing_skips_nothing_witness :
  exists e, async_create_item_listing DOMAIN living_room tracks_request = Raise e.
Proof.
  refine (proj2 (item_listing_skips_nothing DOMAIN living_room tracks_request)
            None [track; podcast] podcast KeyError eq_refl _ eq_refl).
  right. now left.
Defined.

Lemma browse_server_root_witness :
  async_browse_media DOMAIN DEFAULT_NAME [living_room] (Some "srv1/root") =
  Throw (BrowseError "Invalid Music Assistance instance").
Proof.
  exact (browse_server_root DOMAIN DEFAULT_NAME [living_room] living_room eq_refl).
Defined.

Lemma browse_category_witness :
  async_browse_media DOMAIN DEFAULT_NAME [living_room] (Some "srv1/albums") =
  await l <- lift (async_create_item_listing DOMAIN living_room albums_request);
  Return (ItemResult l).
Proof.
  refine (browse_category DOMAIN DEFAULT_NAME [living_room] "srv1" "albums" _ eq_refl _).
  - discriminate.
  - simpl. tauto.
Defined.

End ListingWitnesses.

(** ** media_player.py: the table of entities over time *)

Section TableFacts.

Import PyVal MediaPlayer PlayerProps.

Lemma has_player_spec (mp : media_players_t) (pid : string) :
  has_player mp pid = true <-> In pid (map fst mp).
Proof.
  unfold has_player. rewrite existsb_exists, in_map_iff. split.
  - intros ([k p] & Hin & E). apply String.eqb_eq in E. simpl in E. subst.
    exists (pid, p). auto.
  - intros ([k p] & E & Hin). simpl in E. subst.
    exists (pid, p). split; [exact Hin | apply String.eqb_refl].
Qed.

(** X18.  The update handler keeps the table in order: no player id
    ever has two entities, and every entity stands under the player id
    of its own snapshot. *)
Theorem update_keeps_table (media_players media_players' : media_players_t)
    (player_data : snapshot) (effects : list effect) :
  table_ok media_players ->
  async_update_media_player media_players player_data =
    Ok (media_players', effects) ->
  table_ok media_players'.
Proof.
  intros [Hnd Hid]. unfold async_update_media_player.
  destruct (snapshot_player_id player_data) as [pid|] eqn:Hp; rstep;
    [|discriminate].
  destruct (has_player media_players pid) eqn:Hh; simpl negb; cbv iota;
    [intros [= <- _]; now split|].
  destruct (player_data !! "available") as [av|]; simpl key_get; rstep;
    [|discriminate].
  destruct (truthy av); simpl negb; cbv iota; intros [= <- _]; [|now split].
  split.
  - rewrite map_app. simpl.
    apply NoDup_app. split; [exact Hnd|]. split.
    + intros x Hx Hx'. apply list_elem_of_singleton in Hx'. subst x.
      apply list_elem_of_In, has_player_spec in Hx. congruence.
    + apply NoDup_singleton.
  - apply Forall_app. split; [exact Hid|]. constructor; [|constructor].
    exact Hp.
Qed.

Lemma mark_keeps_id (p : MassPlayer) :
  player_id (fst (async_mark_unavailable p)) = player_id p.
Proof.
  unfold player_id, snapshot_player_id. simpl.
  now rewrite lookup_insert_ne.
Qed.

Lemma remove_keys (mp mp' : media_players_t) (pid : string) (effs : list effect) :
  async_remove_media_player mp pid = Ok (mp', effs) ->
  map fst mp' = map fst mp /\
  Forall2 (fun kp kp' => player_id (snd kp') = player_id (snd kp)) mp mp'.
Proof.
  revert mp' effs; induction mp as [|[k p] mp IH]; intros mp' effs; simpl.
  - intros [= <- _]. split; [reflexivity | constructor].
  - destruct (player_id p) as [ppid|] eqn:Hp; rstep; [|discriminate].
    destruct (async_remove_media_player mp pid) as [[mp1 effs1]|]; rstep;
      [|discriminate].
    intros [= <- _]. destruct (IH mp1 effs1 eq_refl) as [Hk Hall].
    simpl. split; [now rewrite Hk|]. constructor; [|exact Hall].
    simpl. destruct (negb (String.eqb ppid pid)); simpl; [reflexivity|].
    apply mark_keeps_id.
Qed.

Lemma remove_unknown (mp : media_players_t) (pid : string) :
  Forall (fun kp => player_id (snd kp) = Ok (fst kp)) mp ->
  ~ In pid (map fst mp) ->
  async_remove_media_player mp pid = Ok (mp, []).
Proof.
  induction mp as [|[k p] mp IH]; intros Hid Hn; simpl; [reflexivity|].
  inversion Hid as [|? ? Hp Hid']; subst. simpl in Hp. rewrite Hp. rstep.
  destruct (String.eqb_spec k pid) as [->|Hne]; [elim Hn; now left|].
  simpl negb. cbv iota. rewrite IH; [reflexivity | exact Hid'|].
  intros H. apply Hn. now right.
Qed.

(** X19.  In a table that is in order the removal handler always
    returns and keeps the table in order.  For a player without entity
    it changes nothing and asks nothing of Home Assistant; for a player
    with an entity it writes the state of exactly one entity, the one
    under the player's id, whose snapshot then says
    ["available"] is [False]. *)
Theorem remove_marks_one (media_players : media_players_t) (pid : string) :
  table_ok media_players ->
  exists media_players' effects,
    async_remove_media_player media_players pid = Ok (media_players', effects) /\
    table_ok media_players' /\
    (has_player media_players pid = false ->
     media_players' = media_players /\ effects = []) /\
    (has_player media_players pid = true ->
     exists player,
       effects = [WriteHaState player] /\
       In (pid, player) media_players' /\
       _player_data player !! "available" = Some (VBool false)).
Proof.
  intros [Hnd Hid].
  assert (Hret : exists mp' effs,
            async_remove_media_player media_players pid = Ok (mp', effs)).
  { clear Hnd. induction media_players as [|[k p] mp IH]; simpl; [eauto|].
    inversion Hid as [|? ? Hp Hid']; subst. simpl in Hp. rewrite Hp. rstep.
    destruct (IH Hid') as (mp' & effs & ->). rstep. eauto. }
  destruct Hret as (mp' & effs & Hr). exists mp', effs.
  split; [exact Hr|]. destruct (remove_keys _ _ _ _ Hr) as [Hk Hsame].
  split; [|split].
  - split; [now rewrite Hk|].
    clear Hr Hnd. revert mp' Hk Hsame.
    induction Hid as [|[k p] mp Hp Hid IH]; intros mp' Hk Hsame;
      inversion Hsame as [|? [k' p'] ? mp1 Hp' Hsame']; subst; constructor.
    + simpl in *. injection Hk as -> _. now rewrite Hp'.
    + apply IH; [|exact Hsame']. simpl in Hk. now injection Hk.
  - intros Hh. assert (Hn : ~ In pid (map fst media_players)).
    { intros H. apply has_player_spec in H. congruence. }
    rewrite (remove_unknown _ _ Hid Hn) in Hr. now injection Hr as <- <-.
  - intros Hh. apply has_player_spec in Hh.
    clear Hk Hsame. revert mp' effs Hr.
    induction media_players as [|[k p] mp IH]; intros mp' effs Hr; [destruct Hh|].
    inversion Hid as [|? ? Hp Hid']; subst. simpl in Hp.
    simpl in Hnd. apply NoDup_cons in Hnd as [Hk Hnd'].
    simpl in Hr. rewrite Hp in Hr. revert Hr. rstep.
    destruct (String.eqb_spec k pid) as [->|Hne]; simpl negb; cbv iota.
    + rewrite (remove_unknown mp pid Hid'); [|now rewrite <- list_elem_of_In].
      rstep. intros [= <- <-]. eexists. split; [reflexivity|]. split.
      * now left.
      * simpl. apply lookup_insert_eq.
    + destruct Hh as [Hh|Hh]; [simpl in Hh; congruence|].
      destruct (async_remove_media_player mp pid) as [[mp1 effs1]|] eqn:Hr1;
        rstep; [|discriminate].
      intros [= <- <-].
      destruct (IH Hnd' Hid' Hh mp1 effs1 eq_refl)
        as (player & -> & Hin & Hav).
      exists player. split; [reflexivity|]. split; [now right | exact Hav].
Qed.

(** X20.  A removed player that comes back is the same entity: after a
    removal, a snapshot of a player that has an entity adds no entity;
    it is dispatched to the entity of that player, and the table stays
    as the removal left it. *)
Theorem player_comes_back (media_players media_players' : media_players_t)
    (pid : string) (effects : list effect) (player_data : snapshot) :
  async_remove_media_player media_players pid = Ok (media_players', effects) ->
  has_player media_players pid = true ->
  snapshot_player_id player_data = Ok pid ->
  async_update_media_player media_players' player_data =
  Ok (media_players', [DispatcherSend pid player_data]).
Proof.
  intros Hr Hh Hp. destruct (remove_keys _ _ _ _ Hr) as [Hk _].
  assert (Hh' : has_player media_players' pid = true).
  { apply has_player_spec. rewrite Hk. now apply has_player_spec. }
  unfold async_update_media_player. rewrite Hp. rstep. now rewrite Hh'.
Qed.

End TableFacts.

Section TableWitnesses.

Import PyVal MediaPlayer PlayerProps Samples MoreSamples.

Lemma kitchen_table_ok : table_ok [("kitchen", kitchen_player)].
Proof.
  split.
  - simpl. apply NoDup_singleton.
  - constructor; [vm_compute; reflexivity | constructor].
Qed.

Lemma update_keeps_table_witness :
  table_ok [("kitchen", kitchen_player)].
Proof.
  refine (update_keeps_table [] [("kitchen", kitchen_player)] kitchen
            [AddEntities kitchen_player] _ _).
  - split; [constructor | constructor].
  - vm_compute. reflexivity.
Defined.

Lemma remove_marks_one_witness :
  exists media_players' effects,
    async_remove_media_player [("kitchen", kitchen_player)] "kitchen" =
      Ok (media_players', effects) /\
    table_ok media_players' /\
    (has_player [("kitchen", kitchen_player)] "kitchen" = false ->
     media_players' = [("kitchen", kitchen_player)] /\ effects = []) /\
    (has_player [("kitchen", kitchen_player)] "kitchen" = true ->
     exists player,
       effects = [WriteHaState player] /\
       In ("kitchen", player) media_players' /\
       _player_data player !! "available" = Some (VBool false)).
Proof.
  exact (remove_marks_one [("kitchen", kitchen_player)] "kitchen" kitchen_table_ok).
Defined.

Lemma player_comes_back_witness :
  async_update_media_player [("kitchen", init kitchen_off)] kitchen =
  Ok ([("kitchen", init kitchen_off)], [DispatcherSend "kitchen" kitchen]).
Proof.
  refine (player_comes_back [("kitchen", kitchen_player)]
            [("kitchen", init kitchen_off)] "kitchen"
            [WriteHaState (init kitchen_off)] kitchen _ eq_refl _).
  - vm_compute. reflexivity.
  - vm_compute. reflexivity.
Defined.

End TableWitnesses.

(** ** media_player.py: the commands of an entity *)

Section EntityFacts.

Import PyStr PyVal MediaSource MediaPlayer Browse Entity.

Variable DOMAIN : string.
Variable DEFAULT_NAME : string.

Lemma obind_return {A B : Type} (a : A) (k : A -> outcome B) :
  obind (Return a) k = k a.
Proof. reflexivity. Qed.

Lemma play_by_name_spec (self : MassPlayer) (library : list media_item)
    (media_id queue_opt : string) (cmds : list command) :
  play_by_name self library media_id queue_opt = Ok cmds ->
  List.length cmds <= 1 /\
  (cmds = [] -> Forall (fun item => mi_name item <> media_id) library).
Proof.
  induction library as [|item rest IH]; simpl.
  - intros [= <-]. split; [simpl; lia | constructor].
  - destruct (String.eqb_spec (mi_name item) media_id) as [E|Hne].
    + destruct (player_id self); rstep; [|discriminate].
      intros [= <-]. split; [simpl; lia | discriminate].
    + intros H. destruct (IH H) as [Hl Hn]. split; [exact Hl|].
      intros ->. constructor; [exact Hne | now apply Hn].
Qed.

(** X21.  A request to play media that returns has awaited at most one
    command.  It returns without having awaited any only when it asks,
    with a media id free of '/', for a playlist or a radio by a name
    that no item of the library has.  Requests that raise are not
    spoken of: they return nothing. *)
Theorem play_media_commands (self : MassPlayer) (srv : Server)
    (mtype media_id : string) (enqueue : bool) (cmds : list command) :
  async_play_media DOMAIN self srv mtype media_id enqueue = Ok cmds ->
  List.length cmds <= 1 /\
  (cmds = [] ->
   contains "/" media_id = false /\
   ((mtype = "playlist" /\
     Forall (fun item => mi_name item <> media_id) (get_library_playlists srv)) \/
    (mtype = "radio" /\
     Forall (fun item => mi_name item <> media_id) (get_library_radios srv)))).
Proof.
  unfold async_play_media. cbv zeta.
  destruct (startswith (MASS_URI_SCHEME DOMAIN) media_id).
  { destruct (async_parse_uri DOMAIN media_id); rstep; [|discriminate].
    destruct (player_id self); rstep; [|discriminate].
    intros [= <-]. split; [simpl; lia | discriminate]. }
  destruct (Hass.str_in mtype PLAYABLE_MEDIA_TYPES
            && contains ITEM_ID_SEPERATOR media_id).
  { destruct (unpack2 _); rstep; [|discriminate].
    destruct (player_id self); rstep; [|discriminate].
    intros [= <-]. split; [simpl; lia | discriminate]. }
  destruct (contains "/" media_id) eqn:Hs; simpl negb; cbn [andb].
  - destruct (contains "tts_proxy" media_id); [|destruct (contains "alert" mtype)];
      (destruct (player_id self); rstep; [|discriminate]);
      intros [= <-]; (split; [simpl; lia | discriminate]).
  - destruct (String.eqb_spec mtype MEDIA_TYPE_PLAYLIST) as [->|Hp].
    { intros H. apply play_by_name_spec in H as [Hl Hn].
      split; [exact Hl|]. intros E. split; [reflexivity|]. left. auto. }
    destruct (String.eqb_spec mtype MEDIA_TYPE_RADIO) as [->|Hr].
    { intros H. apply play_by_name_spec in H as [Hl Hn].
      split; [exact Hl|]. intros E. split; [reflexivity|]. right. auto. }
    destruct (contains "tts_proxy" media_id); [|destruct (contains "alert" mtype)];
      (destruct (player_id self); rstep; [|discriminate]);
      intros [= <-]; (split; [simpl; lia | discriminate]).
Qed.

(** X22.  A media id '{provider}###{item_id}' with a playable media
    type is played as that item: if neither part holds the separator,
    the provider does not end in '#' and the media id does not start
    with the scheme, exactly one command is awaited, for this provider
    and this item id, to add when enqueueing and to play otherwise. *)
Theorem play_media_direct_item (self : MassPlayer) (srv : Server)
    (mtype prov iid pid : string) (enqueue : bool) :
  Hass.str_in mtype PLAYABLE_MEDIA_TYPES = true ->
  contains ITEM_ID_SEPERATOR prov = false ->
  contains ITEM_ID_SEPERATOR iid = false ->
  last_char prov <> Some "#"%char ->
  startswith (MASS_URI_SCHEME DOMAIN) (prov +:+ ITEM_ID_SEPERATOR +:+ iid) = false ->
  player_id self = Ok pid ->
  async_play_media DOMAIN self srv mtype (prov +:+ ITEM_ID_SEPERATOR +:+ iid) enqueue =
  Ok [PlayMediaItem pid mtype iid prov (if enqueue then "add" else "play")].
Proof.
  intros Hm Hp Hi Hl Hs Hpid. apply contains_false in Hp, Hi.
  unfold async_play_media. cbv zeta. rewrite Hs, Hm.
  pose proof (find_hashes_after prov iid Hp Hl) as Hf.
  unfold contains.
  change (find ITEM_ID_SEPERATOR (prov +:+ ITEM_ID_SEPERATOR +:+ iid))
    with (find "###" (prov +:+ "###" +:+ iid)).
  rewrite Hf. cbn [andb].
  rewrite (split_two ITEM_ID_SEPERATOR prov iid);
    [| exact sep_not_empty | exact Hf | exact Hi].
  simpl unpack2. rstep. rewrite Hpid. rstep. reflexivity.
Qed.

(** X23.  The same media id with a second separator behind the first
    raises [ValueError] and awaits no command. *)
Theorem play_media_two_separators (self : MassPlayer) (srv : Server)
    (mtype media_id : string) (enqueue : bool) (i j : nat) :
  Hass.str_in mtype PLAYABLE_MEDIA_TYPES = true ->
  startswith (MASS_URI_SCHEME DOMAIN) media_id = false ->
  find ITEM_ID_SEPERATOR media_id = Some i ->
  find ITEM_ID_SEPERATOR (drop (i + len ITEM_ID_SEPERATOR) media_id) = Some j ->
  async_play_media DOMAIN self srv mtype media_id enqueue = Raise ValueError.
Proof.
  intros Hm Hs Hi Hj. unfold async_play_media. cbv zeta.
  rewrite Hs, Hm. unfold contains. rewrite Hi. cbn [andb].
  rewrite (unpack2_split _ _ sep_not_empty), Hi, Hj. reflexivity.
Qed.

Lemma volume_round_trip_table :
  forallb
    (fun k =>
       match div100 (VInt (Z.of_nat k)) with
       | Ok level =>
           match int_of_float (level * 100)%float with
           | Some n =>
               Z.eqb n (if existsb (Nat.eqb k) [29; 57; 58]
                        then Z.of_nat k - 1 else Z.of_nat k)
           | None => false
           end
       | Raise _ => false
       end)
    (seq 0 101) = true.
Proof. vm_compute. reflexivity. Qed.

(** X24.  Setting the volume that the entity reports does not always
    send the volume of the snapshot back.  For a snapshot volume [n]
    from 0 to 100 the entity reports [n / 100], and setting that level
    sends [int(n / 100 * 100)]: this is [n], except for 29, 57 and 58,
    where it is [n - 1]. *)
Theorem volume_round_trip (self : MassPlayer) (pid : string) (n : nat) :
  n <= 100 ->
  player_id self = Ok pid ->
  _player_data self !! "volume_level" = Some (VInt (Z.of_nat n)) ->
  exists level,
    volume_level self = Ok level /\
    async_set_volume_level self level =
    Some (Ok [VolumeSet pid
                (if existsb (Nat.eqb n) [29; 57; 58]
                 then Z.of_nat n - 1 else Z.of_nat n)]).
Proof.
  intros Hn Hpid Hv. unfold volume_level. rewrite Hv. simpl key_get. rstep.
  pose proof volume_round_trip_table as T.
  rewrite forallb_forall in T. specialize (T n).
  assert (Hin : In n (seq 0 101)) by (apply in_seq; lia).
  specialize (T Hin).
  destruct (div100 (VInt (Z.of_nat n))) as [level|]; [|discriminate].
  exists level. split; [reflexivity|]. unfold async_set_volume_level.
  destruct (int_of_float (level * 100)%float) as [z|]; [|discriminate].
  apply Z.eqb_eq in T. subst z. now rewrite Hpid.
Qed.

(** X25.  Browsing through an entity reaches the library of its own
    server only.  For the media content id of a library category, the
    scheme followed by '{server_id}/{key}' with a server id that is not
    empty and free of '/', the entity answers with the item listing of
    its server for that category if the server id is its own, and
    raises [BrowseError] otherwise. *)
Theorem entity_browse_category (srv : Server) (sid key ctype : string) :
  sid <> "" -> contains "/" sid = false ->
  In key ["playlists"; "artists"; "albums"; "tracks"; "radios"] ->
  ctype <> "library" ->
  Entity.async_browse_media DOMAIN DEFAULT_NAME srv (Some ctype)
    (Some (MASS_URI_SCHEME DOMAIN +:+ sid +:+ "/" +:+ key)) =
  if String.eqb (server_id (mass srv)) sid
  then
    await l <- lift (async_create_item_listing DOMAIN srv
                       {| item_id := ""; provider := ""; media_type := key;
                          mass_id := sid; content_id := "" |});
    Return (Some (ItemResult l))
  else Throw (BrowseError "Invalid Music Assistance instance").
Proof.
  intros Hne Hs Hk Hc. unfold Entity.async_browse_media.
  apply String.eqb_neq in Hc. rewrite Hc.
  assert (Hend : endswith "/root" (MASS_URI_SCHEME DOMAIN +:+ sid +:+ "/" +:+ key)
                 = false).
  { rewrite <- app_assoc_str.
    apply (endswith_root_key (MASS_URI_SCHEME DOMAIN +:+ sid) key Hk). }
  rewrite obind_return. cbv beta. rewrite Hend.
  rewrite (startswith_app_same (MASS_URI_SCHEME DOMAIN) (sid +:+ "/" +:+ key)).
  apply contains_false in Hs.
  rewrite parse_behind_scheme.
  - rewrite (parse_two_segments DOMAIN sid key Hne Hs).
    + unfold lift at 1. rewrite obind_return. cbv beta. cbn [mass_id].
      now destruct (String.eqb (server_id (mass srv)) sid).
    + simpl in Hk. destruct Hk as [<-|[<-|[<-|[<-|[<-|[]]]]]]; reflexivity.
  - apply few_slashes_no_scheme.
    rewrite !count_char_app, (find1_none_count _ _ Hs).
    simpl in Hk. destruct Hk as [<-|[<-|[<-|[<-|[<-|[]]]]]]; simpl; lia.
Qed.

End EntityFacts.

Section EntityWitnesses.

Import PyStr PyVal MediaSource MediaPlayer Browse Entity Samples MoreSamples.

Lemma play_media_commands_witness :
  List.length ([] : list command) <= 1 /\
  (([] : list command) = [] ->
   contains "/" "Jazz" = false /\
   (("playlist" = "playlist" /\
     Forall (fun item => mi_name item <> "Jazz") (get_library_playlists living_room)) \/
    ("playlist" = "radio" /\
     Forall (fun item => mi_name item <> "Jazz") (get_library_radios living_room)))).
Proof.
  exact (play_media_commands DOMAIN kitchen_player living_room "playlist" "Jazz"
           false [] eq_refl).
Defined.

Lemma play_media_direct_item_witness :
  async_play_media DOMAIN kitchen_player living_room "album" "spotify###42" true =
  Ok [PlayMediaItem "kitchen" "album" "42" "spotify" "add"].
Proof.
  refine (play_media_direct_item DOMAIN kitchen_player living_room
            "album" "spotify" "42" "kitchen" true _ _ _ _ _ _);
    try reflexivity. discriminate.
Defined.

Lemma play_media_two_separators_witness :
  async_play_media DOMAIN kitchen_player living_room "album" "a###b###c" false =
  Raise ValueError.
Proof.
  exact (play_media_two_separators DOMAIN kitchen_player living_room
           "album" "a###b###c" false 1 1 eq_refl eq_refl eq_refl eq_refl).
Defined.

Lemma volume_round_trip_witness :
  exists level,
    volume_level (init {[ "player_id" := VStr "kitchen"; "volume_level" := VInt 29 ]})
      = Ok level /\
    async_set_volume_level
      (init {[ "player_id" := VStr "kitchen"; "volume_level" := VInt 29 ]}) level =
    Some (Ok [VolumeSet "kitchen" 28]).
Proof.
  refine (volume_round_trip
            (init {[ "player_id" := VStr "kitchen"; "volume_level" := VInt 29 ]})
            "kitchen" 29 _ _ _).
  - repeat constructor.
  - vm_compute. reflexivity.
  - vm_compute. reflexivity.
Defined.

Lemma entity_browse_category_witness :
  Entity.async_browse_media DOMAIN DEFAULT_NAME living_room (Some "albums")
    (Some "media-source://music_assistant/srv1/albums") =
  await l <- lift (async_create_item_listing DOMAIN living_room albums_request);
  Return (Some (ItemResult l)).
Proof.
  refine (entity_browse_category DOMAIN DEFAULT_NAME living_room "srv1" "albums"
            "albums" _ eq_refl _ _).
  - discriminate.
  - simpl. tauto.
  - discriminate.
Defined.

End EntityWitnesses.

(** ** player_controls.py: registration and state changes agree *)

Section RegistrationAgreement.

Import PyVal PlayerControls ControlProps.

Lemma register_fold_states (hass : Hass.states) (enabled : list string)
    (l : list control) (t : gmap string (list control))
    (calls : list register_call) :
  Forall (fun call =>
            exists e,
              Hass.states_get hass (entity_id (reg_cb_control call)) = Some e /\
              reg_state call =
                match control_type (reg_cb_control call) with
                | CONTROL_TYPE_VOLUME => volume_times_100 e
                | CONTROL_TYPE_POWER => VBool (not_off e)
                end) calls ->
  Forall (fun call =>
            exists e,
              Hass.states_get hass (entity_id (reg_cb_control call)) = Some e /\
              reg_state call =
                match control_type (reg_cb_control call) with
                | CONTROL_TYPE_VOLUME => volume_times_100 e
                | CONTROL_TYPE_POWER => VBool (not_off e)
                end)
    (snd (fold_left (register_one hass enabled) l (t, calls))).
Proof.
  revert t calls; induction l as [|c l IH]; intros t calls Hc; simpl; [exact Hc|].
  unfold register_one at 2.
  destruct (negb _); [now apply IH|].
  destruct (Hass.states_get hass (entity_id c)) as [e|] eqn:He; [|now apply IH].
  simpl. apply IH. apply Forall_app. split; [exact Hc|].
  constructor; [|constructor]. simpl. eauto.
Qed.

(** X26.  For every control that is not a sourced power control, the
    state reported at registration is the state that a state change of
    the same entity state would push: the two paths of the bridge
    disagree on sourced power controls only. *)
Theorem register_push_agree (self : HassPlayerControls) (hass : Hass.states)
    (call : register_call) :
  In call (snd (async_register_player_controls self hass)) ->
  sourced_power (reg_cb_control call) = Ok None ->
  exists e,
    Hass.states_get hass (entity_id (reg_cb_control call)) = Some e /\
    pushed_state e (reg_cb_control call) = Ok (reg_state call).
Proof.
  intros Hin Hsp. unfold async_register_player_controls in Hin. cbn [snd] in Hin.
  pose proof (register_fold_states hass
                (enabled_controls (config_options self))
                (async_get_playercontrol_entities hass)
                (_registered_controls self) [] (List.Forall_nil _)) as H.
  rewrite Forall_forall in H.
  destruct (H call (proj2 (list_elem_of_In _ _) Hin)) as (e & He & Hst).
  exists e. split; [exact He|].
  unfold pushed_state. rewrite Hsp. rstep. rewrite Hst.
  now destruct (control_type (reg_cb_control call)).
Qed.

End RegistrationAgreement.

Section RegistrationAgreementWitness.

Import PyVal PlayerControls ControlProps Samples.

Lemma register_push_agree_witness :
  exists e,
    Hass.states_get [receiver] "media_player.receiver" = Some e /\
    pushed_state e receiver_volume = Ok (VFloat 50).
Proof.
  refine (register_push_agree (init volume_only) [receiver]
            {| reg_control_type := CONTROL_TYPE_VOLUME;
               reg_control_id := "media_player.receiver_volume";
               reg_provider_name := "Home Assistant";
               reg_name := "Receiver (media_player.receiver)";
               reg_state := VFloat 50;
               reg_cb_control := receiver_volume |} _ eq_refl).
  vm_compute. now left.
Defined.

End RegistrationAgreementWitness.
